(** * 3D-HOUSE-JS: the interaction logic of [src/js/three.js]

    A shallow embedding of the page script: the scene graph handed over by
    the model loader, the colour store of the materials, the two DOM
    panels, the pending callbacks (animation frames, timers, asset
    requests) and one handler per browser event.  Every handler is a total
    function on the page state; the browser's event loop is the fold of
    the handlers over a list of events. *)

From Stdlib Require Import QArith Floats.
From stdpp Require Import gmap strings list fin_maps.

Close Scope Q_scope.
Open Scope string_scope.
Open Scope list_scope.
#[local] Set Warnings "-clear-no-such-hyp".

(** ** JavaScript values read from an object literal *)

Module JS.

(** What [obj[key]] can evaluate to on an object literal whose own
    properties are strings: a missing key gives [undefined], an own key
    its string, and a key of [Object.prototype] the inherited member
    (a built-in function, or the prototype object for [__proto__]). *)
Inductive Value :=
| Undefined
| Str (s : string)
| Inherited (key : string).

#[global] Instance Value_eq_dec : EqDecision Value.
Proof. solve_decision. Defined.

(** The property names every object literal inherits. *)
Definition Object_prototype : list string :=
  [ "constructor"; "__defineGetter__"; "__defineSetter__"; "hasOwnProperty";
    "__lookupGetter__"; "__lookupSetter__"; "isPrototypeOf";
    "propertyIsEnumerable"; "toString"; "valueOf"; "__proto__";
    "toLocaleString" ].

(** [obj[key]]: own properties first, then the prototype. *)
Definition get (own : gmap string string) (key : string) : Value :=
  match own !! key with
  | Some v => Str v
  | None => if bool_decide (key ∈ Object_prototype) then Inherited key
            else Undefined
  end.

(** Truthiness as used by [if (v)] and [v || d]. *)
Definition truthy (v : Value) : bool :=
  match v with
  | Undefined => false
  | Str s => negb (String.eqb s "")
  | Inherited _ => true
  end.

(** [v || d] *)
Definition or (v d : Value) : Value := if truthy v then v else d.

(** A non-negative integer as a JavaScript number: the double nearest to
    it (the integer itself below 2^53, as every window size is). *)
Definition number (n : N) : float :=
  SF2Prim (binary_normalize prec emax (Z.of_N n) 0 false).

End JS.

(** ** Material handling tables (lines 60-72) *)

Definition roofMaterialName : string := "genting.004".
Definition roofColor : string := "#5CA9E9".

Definition otherMaterialColors : gmap string string :=
  <["Glass.009" := "#87CEEB"]>
  (<["Material.137" := "#FFD700"]>
  (<["Material.136" := "#228B22"]> ∅)).

Definition materialDescriptions : gmap string string :=
  <["Glass.009" := "Title of obj: WINDOW"]>
  (<["Material.137" := "Title of obj: ROOF"]>
  (<["Material.136" := "Title of obj: GARDEN"]> ∅)).

(** The names the script knows: the roof's and the keys of the colour
    table. *)
Definition known_names : list string :=
  [ roofMaterialName; "Glass.009"; "Material.137"; "Material.136" ].

(** ** Scene graph *)

(** A material object.  The script never renames a material, so the object
    is denoted by its identity together with its name; two meshes share a
    material when they carry the same value.  The mutable colour lives in
    the page state, keyed by the material. *)
Record Material := { mat_uuid : nat; mat_name : string }.

#[global] Instance Material_eq_dec : EqDecision Material.
Proof. solve_decision. Defined.

#[global] Program Instance Material_countable : Countable Material :=
  inj_countable' (fun m => (mat_uuid m, mat_name m))
                 (fun p => {| mat_uuid := p.1; mat_name := p.2 |}) _.
Next Obligation. by intros []. Qed.

(** [child.material] is one material or an array of them. *)
Inductive MaterialSlot :=
| SingleMaterial (m : Material)
| MaterialArray (ms : list Material).

(** An object of the loaded scene: its identity, the [isMesh] flag, the
    material slot, the two shadow flags and its children.  Objects that
    render nothing (groups, bones) carry the empty material array. *)
#[warnings="-register-all"] Inductive Object3D := mkObject3D {
  obj_uuid : nat;
  isMesh : bool;
  material : MaterialSlot;
  castShadow : bool;
  receiveShadow : bool;
  children : list Object3D
}.

(** [Array.isArray(o.material) ? o.material : [o.material]] *)
Definition materials_of (o : Object3D) : list Material :=
  match material o with
  | MaterialArray ms => ms
  | SingleMaterial m => [m]
  end.

(** [o.traverse(callback)]: the object itself, then each child's subtree,
    in order. *)
Fixpoint traverse (o : Object3D) : list Object3D :=
  o :: flat_map traverse (children o).


(** The load callback's visit of one object (lines 111-114): a mesh casts
    and receives shadows.  The whole subtree is visited, so the objects
    the page holds afterwards are the tagged ones. *)
Fixpoint tag_shadows (o : Object3D) : Object3D :=
  {| obj_uuid := obj_uuid o;
     isMesh := isMesh o;
     material := material o;
     castShadow := if isMesh o then true else castShadow o;
     receiveShadow := if isMesh o then true else receiveShadow o;
     children := map tag_shadows (children o) |}.

(** The test of line 117:
    [mat.name === roofMaterialName || otherMaterialColors[mat.name]]. *)
Definition is_clickable_material (mat : Material) : bool :=
  String.eqb (mat_name mat) roofMaterialName
  || JS.truthy (JS.get otherMaterialColors (mat_name mat)).

(** Lines 111-121 for one visited object: a mesh is pushed once for each
    of its materials that passes the test. *)
Definition clickable_entries (child : Object3D) : list Object3D :=
  if isMesh child then
    flat_map (fun mat => if is_clickable_material mat then [child] else [])
             (materials_of child)
  else [].

(** ** Ray casting *)

(** A ray, as far as the script can tell: for each object (by identity)
    the distances at which the ray meets its geometry.  The pointer
    arithmetic of lines 136-138 and the camera decide which ray a click
    casts; both are left to the event. *)
Definition Ray := nat -> list Q.

Record Intersection := { distance : Q; object : Object3D }.

(** The object's own hits, then those of its descendants (the second
    argument [true] of [intersectObjects]). *)
Fixpoint intersectObject (ray : Ray) (o : Object3D) : list Intersection :=
  map (fun d => {| distance := d; object := o |}) (ray (obj_uuid o))
  ++ flat_map (intersectObject ray) (children o).

(** [intersects.sort(ascSort)]: ascending distance, stable. *)
Fixpoint insert_asc (x : Intersection) (l : list Intersection)
  : list Intersection :=
  match l with
  | [] => [x]
  | y :: l' => if Qle_bool (distance x) (distance y) then x :: l
               else y :: insert_asc x l'
  end.

Definition ascSort (l : list Intersection) : list Intersection :=
  foldr insert_asc [] l.

Definition intersectObjects (ray : Ray) (objects : list Object3D)
  : list Intersection :=
  ascSort (flat_map (intersectObject ray) objects).

(** ** Page state *)

(** The inline style of the overlay element. *)
Record Style := { display : string; opacity : string }.

(** The callbacks the script hands to [requestAnimationFrame]. *)
Inductive FrameCallback :=
| Animate          (* line 183: the render loop *)
| OverlayFadeIn.   (* line 151: overlay.style.opacity = '1' *)

#[global] Instance FrameCallback_eq_dec : EqDecision FrameCallback.
Proof. solve_decision. Defined.

(** The callback the script hands to [setTimeout]. *)
Inductive TimerCallback :=
| OverlayHide.     (* line 172: overlay.style.display = 'none' *)

#[global] Instance TimerCallback_eq_dec : EqDecision TimerCallback.
Proof. solve_decision. Defined.

(** The asset whose load callback has not run yet. *)
Inductive Asset := EnvHdr | ModelGlb.

#[global] Instance Asset_eq_dec : EqDecision Asset.
Proof. solve_decision. Defined.

Definition Texture := nat.

Record State := {
  environment : option Texture;        (* scene.environment *)
  pending_load : option Asset;         (* the request in flight *)
  scene : list Object3D;               (* models added to the scene *)
  clickableMeshes : list Object3D;
  colors : gmap Material string;       (* style last set on a material *)
  overlay : option Style;              (* #overlayContainer, if present *)
  materialInfoBox : string;            (* its style.display *)
  materialText : JS.Value;             (* #materialText textContent *)
  camera_aspect : float;
  projection_aspect : float;           (* aspect in the projection matrix *)
  renderer_size : N * N;
  raf_queue : list FrameCallback;           (* animation-frame callbacks *)
  timers : list (nat * TimerCallback);     (* due time, callback *)
  now : nat;                           (* milliseconds *)
  rendered : nat;                      (* frames drawn *)
  uncaught : nat                       (* uncaught TypeErrors *)
}.

Definition set_environment v (s : State) : State :=
  {| environment := v; pending_load := pending_load s; scene := scene s;
     clickableMeshes := clickableMeshes s; colors := colors s;
     overlay := overlay s; materialInfoBox := materialInfoBox s;
     materialText := materialText s; camera_aspect := camera_aspect s;
     projection_aspect := projection_aspect s;
     renderer_size := renderer_size s; raf_queue := raf_queue s;
     timers := timers s; now := now s; rendered := rendered s;
     uncaught := uncaught s |}.

Definition set_pending_load v (s : State) : State :=
  {| environment := environment s; pending_load := v; scene := scene s;
     clickableMeshes := clickableMeshes s; colors := colors s;
     overlay := overlay s; materialInfoBox := materialInfoBox s;
     materialText := materialText s; camera_aspect := camera_aspect s;
     projection_aspect := projection_aspect s;
     renderer_size := renderer_size s; raf_queue := raf_queue s;
     timers := timers s; now := now s; rendered := rendered s;
     uncaught := uncaught s |}.

Definition set_scene v (s : State) : State :=
  {| environment := environment s; pending_load := pending_load s;
     scene := v; clickableMeshes := clickableMeshes s; colors := colors s;
     overlay := overlay s; materialInfoBox := materialInfoBox s;
     materialText := materialText s; camera_aspect := camera_aspect s;
     projection_aspect := projection_aspect s;
     renderer_size := renderer_size s; raf_queue := raf_queue s;
     timers := timers s; now := now s; rendered := rendered s;
     uncaught := uncaught s |}.

Definition set_clickableMeshes v (s : State) : State :=
  {| environment := environment s; pending_load := pending_load s;
     scene := scene s; clickableMeshes := v; colors := colors s;
     overlay := overlay s; materialInfoBox := materialInfoBox s;
     materialText := materialText s; camera_aspect := camera_aspect s;
     projection_aspect := projection_aspect s;
     renderer_size := renderer_size s; raf_queue := raf_queue s;
     timers := timers s; now := now s; rendered := rendered s;
     uncaught := uncaught s |}.

Definition set_colors v (s : State) : State :=
  {| environment := environment s; pending_load := pending_load s;
     scene := scene s; clickableMeshes := clickableMeshes s; colors := v;
     overlay := overlay s; materialInfoBox := materialInfoBox s;
     materialText := materialText s; camera_aspect := camera_aspect s;
     projection_aspect := projection_aspect s;
     renderer_size := renderer_size s; raf_queue := raf_queue s;
     timers := timers s; now := now s; rendered := rendered s;
     uncaught := uncaught s |}.

Definition set_overlay v (s : State) : State :=
  {| environment := environment s; pending_load := pending_load s;
     scene := scene s; clickableMeshes := clickableMeshes s;
     colors := colors s; overlay := v; materialInfoBox := materialInfoBox s;
     materialText := materialText s; camera_aspect := camera_aspect s;
     projection_aspect := projection_aspect s;
     renderer_size := renderer_size s; raf_queue := raf_queue s;
     timers := timers s; now := now s; rendered := rendered s;
     uncaught := uncaught s |}.

Definition set_materialInfoBox v (s : State) : State :=
  {| environment := environment s; pending_load := pending_load s;
     scene := scene s; clickableMeshes := clickableMeshes s;
     colors := colors s; overlay := overlay s; materialInfoBox := v;
     materialText := materialText s; camera_aspect := camera_aspect s;
     projection_aspect := projection_aspect s;
     renderer_size := renderer_size s; raf_queue := raf_queue s;
     timers := timers s; now := now s; rendered := rendered s;
     uncaught := uncaught s |}.

Definition set_materialText v (s : State) : State :=
  {| environment := environment s; pending_load := pending_load s;
     scene := scene s; clickableMeshes := clickableMeshes s;
     colors := colors s; overlay := overlay s;
     materialInfoBox := materialInfoBox s; materialText := v;
     camera_aspect := camera_aspect s;
     projection_aspect := projection_aspect s;
     renderer_size := renderer_size s; raf_queue := raf_queue s;
     timers := timers s; now := now s; rendered := rendered s;
     uncaught := uncaught s |}.

Definition set_camera_aspect v (s : State) : State :=
  {| environment := environment s; pending_load := pending_load s;
     scene := scene s; clickableMeshes := clickableMeshes s;
     colors := colors s; overlay := overlay s;
     materialInfoBox := materialInfoBox s; materialText := materialText s;
     camera_aspect := v; projection_aspect := projection_aspect s;
     renderer_size := renderer_size s; raf_queue := raf_queue s;
     timers := timers s; now := now s; rendered := rendered s;
     uncaught := uncaught s |}.

Definition set_projection_aspect v (s : State) : State :=
  {| environment := environment s; pending_load := pending_load s;
     scene := scene s; clickableMeshes := clickableMeshes s;
     colors := colors s; overlay := overlay s;
     materialInfoBox := materialInfoBox s; materialText := materialText s;
     camera_aspect := camera_aspect s; projection_aspect := v;
     renderer_size := renderer_size s; raf_queue := raf_queue s;
     timers := timers s; now := now s; rendered := rendered s;
     uncaught := uncaught s |}.

Definition set_renderer_size v (s : State) : State :=
  {| environment := environment s; pending_load := pending_load s;
     scene := scene s; clickableMeshes := clickableMeshes s;
     colors := colors s; overlay := overlay s;
     materialInfoBox := materialInfoBox s; materialText := materialText s;
     camera_aspect := camera_aspect s;
     projection_aspect := projection_aspect s; renderer_size := v;
     raf_queue := raf_queue s; timers := timers s; now := now s;
     rendered := rendered s; uncaught := uncaught s |}.

Definition set_raf_queue v (s : State) : State :=
  {| environment := environment s; pending_load := pending_load s;
     scene := scene s; clickableMeshes := clickableMeshes s;
     colors := colors s; overlay := overlay s;
     materialInfoBox := materialInfoBox s; materialText := materialText s;
     camera_aspect := camera_aspect s;
     projection_aspect := projection_aspect s;
     renderer_size := renderer_size s; raf_queue := v; timers := timers s;
     now := now s; rendered := rendered s; uncaught := uncaught s |}.

Definition set_timers v (s : State) : State :=
  {| environment := environment s; pending_load := pending_load s;
     scene := scene s; clickableMeshes := clickableMeshes s;
     colors := colors s; overlay := overlay s;
     materialInfoBox := materialInfoBox s; materialText := materialText s;
     camera_aspect := camera_aspect s;
     projection_aspect := projection_aspect s;
     renderer_size := renderer_size s; raf_queue := raf_queue s; timers := v;
     now := now s; rendered := rendered s; uncaught := uncaught s |}.

Definition set_now v (s : State) : State :=
  {| environment := environment s; pending_load := pending_load s;
     scene := scene s; clickableMeshes := clickableMeshes s;
     colors := colors s; overlay := overlay s;
     materialInfoBox := materialInfoBox s; materialText := materialText s;
     camera_aspect := camera_aspect s;
     projection_aspect := projection_aspect s;
     renderer_size := renderer_size s; raf_queue := raf_queue s;
     timers := timers s; now := v; rendered := rendered s;
     uncaught := uncaught s |}.

Definition set_rendered v (s : State) : State :=
  {| environment := environment s; pending_load := pending_load s;
     scene := scene s; clickableMeshes := clickableMeshes s;
     colors := colors s; overlay := overlay s;
     materialInfoBox := materialInfoBox s; materialText := materialText s;
     camera_aspect := camera_aspect s;
     projection_aspect := projection_aspect s;
     renderer_size := renderer_size s; raf_queue := raf_queue s;
     timers := timers s; now := now s; rendered := v;
     uncaught := uncaught s |}.

Definition set_uncaught v (s : State) : State :=
  {| environment := environment s; pending_load := pending_load s;
     scene := scene s; clickableMeshes := clickableMeshes s;
     colors := colors s; overlay := overlay s;
     materialInfoBox := materialInfoBox s; materialText := materialText s;
     camera_aspect := camera_aspect s;
     projection_aspect := projection_aspect s;
     renderer_size := renderer_size s; raf_queue := raf_queue s;
     timers := timers s; now := now s; rendered := rendered s;
     uncaught := v |}.

(** ** Browser primitives *)

Definition overlay_present (s : State) : bool :=
  match overlay s with Some _ => true | None => false end.

(** An assignment to a property of [overlay.style].  With no overlay
    element, [overlay] is [null] and the assignment is an uncaught
    [TypeError]: the callback stops there. *)
Definition overlay_style_set (f : Style -> Style) (s : State) : State :=
  match overlay s with
  | Some st => set_overlay (Some (f st)) s
  | None => set_uncaught (S (uncaught s)) s
  end.

Definition with_display (v : string) (st : Style) : Style :=
  {| display := v; opacity := opacity st |}.

Definition with_opacity (v : string) (st : Style) : Style :=
  {| display := display st; opacity := v |}.

(** [overlay.style.display === v], read behind the guard [overlay &&]. *)
Definition overlay_display_is (v : string) (s : State) : bool :=
  match overlay s with
  | Some st => String.eqb (display st) v
  | None => false
  end.

Definition requestAnimationFrame (cb : FrameCallback) (s : State) : State :=
  set_raf_queue (raf_queue s ++ [cb]) s.

Definition setTimeout (cb : TimerCallback) (delay : nat) (s : State) : State :=
  set_timers (timers s ++ [(now s + delay, cb)]) s.

(** [mat.color.set(value)]: a style string is taken over; a value that
    is neither a colour, a number nor a string leaves the colour as it
    is. *)
Definition color_set (mat : Material) (value : JS.Value) (s : State) : State :=
  match value with
  | JS.Str c => set_colors (<[mat := c]> (colors s)) s
  | _ => s
  end.

(** ** Handlers *)

(** Lines 93-99 and 101-105: the environment callback installs the map
    and calls [loadModel], which issues the model request. *)
Definition loadModel (s : State) : State :=
  set_pending_load (Some ModelGlb) s.

Definition on_env_loaded (texture : Texture) (s : State) : State :=
  loadModel (set_environment (Some texture) s).

(** Lines 105-131: the model callback. *)
Definition on_model_loaded (gltf_scene : Object3D) (s : State) : State :=
  let model := tag_shadows gltf_scene in
  let s1 := set_clickableMeshes
              (clickableMeshes s ++ flat_map clickable_entries (traverse model))
              s in
  set_pending_load None (set_scene (scene s1 ++ [model]) s1).

(** Lines 146-163: the body of the [forEach] over the clicked object's
    materials. *)
Definition click_material (mat : Material) (s : State) : State :=
  if String.eqb (mat_name mat) roofMaterialName then
    let s1 := color_set mat (JS.Str roofColor) s in
    if overlay_present s1 then
      requestAnimationFrame OverlayFadeIn
        (overlay_style_set (with_display "flex") s1)
    else s1
  else if JS.truthy (JS.get otherMaterialColors (mat_name mat)) then
    let s1 := color_set mat (JS.get otherMaterialColors (mat_name mat)) s in
    let s2 := set_materialText
                (JS.or (JS.get materialDescriptions (mat_name mat))
                       (JS.Str "Material clicked."))
                s1 in
    set_materialInfoBox "block" s2
  else s.

(** [materials.forEach(...)], line 146. *)
Definition click_all (s : State) (materials : list Material) : State :=
  foldl (fun s mat => click_material mat s) s materials.

(** Lines 135-165. *)
Definition on_click (ray : Ray) (s : State) : State :=
  match intersectObjects ray (clickableMeshes s) with
  | [] => s
  | hit :: _ => click_all s (materials_of (object hit))
  end.

(** Lines 168-180. *)
Definition on_keydown (key : string) (s : State) : State :=
  if String.eqb key "Escape" then
    let s1 := if overlay_present s && overlay_display_is "flex" s then
                setTimeout OverlayHide 300
                  (overlay_style_set (with_opacity "0") s)
              else s in
    if String.eqb (materialInfoBox s1) "block" then
      set_materialInfoBox "none" s1
    else s1
  else s.

(** Line 86: the inline handler of the Close button of the info panel.
    The press that runs it is a pointer click, which then also reaches
    the window's click listener: a press is this handler followed by
    [on_click] with the ray of the press. *)
Definition on_close (s : State) : State := set_materialInfoBox "none" s.

(** Lines 192-196, for a window that is now [w] by [h]. *)
Definition on_resize (w h : N) (s : State) : State :=
  let s1 := set_camera_aspect (JS.number w / JS.number h)%float s in
  let s2 := set_projection_aspect (camera_aspect s1) s1 in
  set_renderer_size (w, h) s2.

(** One frame callback run by the browser: the render loop asks for the
    next frame and draws (lines 183-188); the fade-in is line 152. *)
Definition run_frame_callback (cb : FrameCallback) (s : State) : State :=
  match cb with
  | Animate => set_rendered (S (rendered s)) (requestAnimationFrame Animate s)
  | OverlayFadeIn => overlay_style_set (with_opacity "1") s
  end.

(** One timer callback run by the browser (line 173). *)
Definition run_timer_callback (cb : TimerCallback) (s : State) : State :=
  match cb with
  | OverlayHide => overlay_style_set (with_display "none") s
  end.

(** A paint frame: the callbacks requested so far run in order; what they
    request goes to the next frame. *)
Definition on_frame (s : State) : State :=
  foldl (fun s cb => run_frame_callback cb s) (set_raf_queue [] s)
        (raf_queue s).

(** The clock advances by [dt] milliseconds and the timers that are due
    run. *)
Definition on_advance (dt : nat) (s : State) : State :=
  let t := now s + dt in
  let due := filter (fun p => p.1 <= t) (timers s) in
  let later := filter (fun p => ~ p.1 <= t) (timers s) in
  foldl (fun s p => run_timer_callback p.2 s)
        (set_timers later (set_now t s)) due.

(** ** The event loop *)

Inductive Event :=
| EnvLoaded (texture : Texture)
| ModelLoaded (gltf_scene : Object3D)
| Click (ray : Ray)
| KeyDown (key : string)
| CloseButton
| Resize (w h : N)
| Frame
| Advance (dt : nat).

(** A load callback runs when its request is the one in flight. *)
Definition step (s : State) (e : Event) : State :=
  match e with
  | EnvLoaded texture =>
      if decide (pending_load s = Some EnvHdr) then on_env_loaded texture s
      else s
  | ModelLoaded gltf_scene =>
      if decide (pending_load s = Some ModelGlb) then
        on_model_loaded gltf_scene s
      else s
  | Click ray => on_click ray s
  | KeyDown key => on_keydown key s
  | CloseButton => on_close s
  | Resize w h => on_resize w h s
  | Frame => on_frame s
  | Advance dt => on_advance dt s
  end.

Definition run (s : State) (events : list Event) : State :=
  foldl step s events.

(** The state the script leaves when it has run to its end (lines 8-99 and
    189): [overlay_found] tells whether [#overlayContainer] exists, [w] and
    [h] are the window's size. *)
Definition init (overlay_found : bool) (w h : N) : State :=
  {| environment := None;
     pending_load := Some EnvHdr;
     scene := [];
     clickableMeshes := [];
     colors := ∅;
     overlay := if overlay_found
                then Some {| display := "none"; opacity := "0" |}
                else None;
     materialInfoBox := "";
     materialText := JS.Str "Material info will appear here.";
     camera_aspect := (JS.number w / JS.number h)%float;
     projection_aspect := (JS.number w / JS.number h)%float;
     renderer_size := (w, h);
     raf_queue := [Animate];
     timers := [];
     now := 0;
     rendered := 1;
     uncaught := 0 |}.

(** ** Predicates of the statements *)

(** Induction over a scene graph: a property holds of every object when
    it holds of an object whose children all have it. *)
Fixpoint Object3D_subtree_ind (P : Object3D -> Prop)
    (IH : forall o, Forall P (children o) -> P o) (o : Object3D) : P o :=
  IH o ((fix all (l : list Object3D) : Forall P l :=
           match l return Forall P l with
           | [] => @List.Forall_nil _ P
           | x :: l' =>
               @List.Forall_cons _ P x l' (Object3D_subtree_ind P IH x)
                                 (all l')
           end) (children o)).

(** The ray meets none of the objects, nor any of their descendants. *)
Definition misses (ray : Ray) (objects : list Object3D) : Prop :=
  forall o d, o ∈ objects -> d ∈ traverse o -> ray (obj_uuid d) = [].

(** Which branch of the [forEach] body a material takes. *)
Definition roof_branch (mat : Material) : bool :=
  String.eqb (mat_name mat) roofMaterialName.

Definition info_branch (mat : Material) : bool :=
  negb (roof_branch mat)
  && JS.truthy (JS.get otherMaterialColors (mat_name mat)).

(** The part of the page the load callbacks write. *)
Definition loading_part (s : State) :=
  (environment s, pending_load s, scene s, clickableMeshes s).

(** While a request is in flight nothing is clickable, and the model is
    requested only once the environment is installed. *)
Definition loading_invariant (s : State) : Prop :=
  (pending_load s <> Some EnvHdr -> is_Some (environment s))
  /\ (pending_load s <> None -> clickableMeshes s = [] /\ scene s = []).

(** A page without the overlay element on which nothing has gone wrong:
    no callback that touches the overlay is pending. *)
Definition no_overlay (s : State) : Prop :=
  overlay s = None /\ uncaught s = 0
  /\ Forall (eq Animate) (raf_queue s) /\ timers s = [].

(** Events in which only time passes: frames and clock ticks. *)
Definition time_only (events : list Event) : Prop :=
  Forall (fun e => e = Frame \/ exists dt, e = Advance dt) events.

(** How often an object, told by its identity, occurs in a list. *)
Definition occurrences (uuid : nat) (l : list Object3D) : nat :=
  length (filter (fun o => obj_uuid o = uuid) l).

(** ** Sample data *)

Module Sample.

Definition roofMat : Material := {| mat_uuid := 1; mat_name := "genting.004" |}.
Definition goldMat : Material := {| mat_uuid := 2; mat_name := "Material.137" |}.
Definition glassMat : Material := {| mat_uuid := 3; mat_name := "Glass.009" |}.
Definition wallMat : Material := {| mat_uuid := 4; mat_name := "Wall" |}.
Definition ctorMat : Material := {| mat_uuid := 5; mat_name := "constructor" |}.

Definition mesh (uuid : nat) (slot : MaterialSlot) : Object3D :=
  {| obj_uuid := uuid; isMesh := true; material := slot;
     castShadow := false; receiveShadow := false; children := [] |}.

Definition group (uuid : nat) (objects : list Object3D) : Object3D :=
  {| obj_uuid := uuid; isMesh := false; material := MaterialArray [];
     castShadow := false; receiveShadow := false; children := objects |}.

(** A house: a roof, a facade whose two materials are both in the colour
    table, a tower with a roof material and a table material, a wall. *)
Definition house : Object3D :=
  group 0 [ mesh 1 (SingleMaterial roofMat);
            mesh 2 (MaterialArray [goldMat; glassMat]);
            mesh 3 (MaterialArray [roofMat; goldMat]);
            mesh 4 (SingleMaterial wallMat) ].

(** A model whose artist named a material [constructor]. *)
Definition shed : Object3D :=
  group 0 [ mesh 1 (SingleMaterial ctorMat);
            mesh 2 (MaterialArray [roofMat; ctorMat]) ].

(** The ray that meets the object [uuid], and nothing else, at distance
    10. *)
Definition ray_at (uuid : nat) : Ray :=
  fun i => if Nat.eqb i uuid then [10 # 1]%Q else [].

(** What [ray_at] reports for a loaded object. *)
Definition hit (o : Object3D) : Intersection :=
  {| distance := 10 # 1; object := tag_shadows o |}.

(** The page once [model] is loaded, in an 800 by 600 window. *)
Definition loaded (overlay_found : bool) (model : Object3D) : State :=
  run (init overlay_found 800 600) [EnvLoaded 0; ModelLoaded model].

End Sample.

(** ** What a click amounts to *)

(** The colour a click gives a material of that name, if any (lines
    147-156): the roof colour for the roof's name, otherwise the string
    the colour table holds under the name.  An inherited entry is truthy
    but is no colour. *)
Definition name_color (name : string) : option string :=
  if String.eqb name roofMaterialName then Some roofColor
  else match JS.get otherMaterialColors name with
       | JS.Str c => if JS.truthy (JS.Str c) then Some c else None
       | _ => None
       end.

(** The text line 160 writes for a material of that name. *)
Definition info_text (name : string) : JS.Value :=
  JS.or (JS.get materialDescriptions name) (JS.Str "Material clicked.").



(** The frames among a list of events. *)
Definition is_frame (e : Event) : bool :=
  match e with Frame => true | _ => false end.

Definition frames (events : list Event) : nat :=
  length (List.filter is_frame events).


(** The part of the page a resize writes. *)
Definition view_part (s : State) :=
  (camera_aspect s, projection_aspect s, renderer_size s).

(** ** Invariants of the reachable states *)

(** Every pending hide is due within the next 300 ms, and there is an
    overlay for it to hide. *)
Definition timers_bounded (s : State) : Prop :=
  Forall (fun p => now s < p.1 <= now s + 300) (timers s)
  /\ (timers s = [] \/ overlay_present s = true).


(** Nothing is loaded yet, or the scene holds the one model, tagged, and
    the clickable list is what the traversal of that model pushed. *)
Definition model_state (s : State) : Prop :=
  (pending_load s <> None /\ scene s = [] /\ clickableMeshes s = [])
  \/ (pending_load s = None
      /\ exists gltf_scene,
           scene s = [tag_shadows gltf_scene]
           /\ clickableMeshes s
              = flat_map clickable_entries (traverse (tag_shadows gltf_scene))).

(** ** A roof with a rail *)

Module Porch.

(** A roof mesh whose child is no mesh (a line) and carries a material of
    its own, named like the roof's. *)
Definition railMat : Material := {| mat_uuid := 6; mat_name := "genting.004" |}.

Definition rail : Object3D :=
  {| obj_uuid := 2; isMesh := false; material := SingleMaterial railMat;
     castShadow := false; receiveShadow := false; children := [] |}.

Definition roof : Object3D :=
  {| obj_uuid := 1; isMesh := true; material := SingleMaterial Sample.roofMat;
     castShadow := false; receiveShadow := false; children := [rail] |}.

Definition model : Object3D := Sample.group 0 [roof].

End Porch.

(** The milliseconds that pass in a list of events. *)
Definition elapsed (events : list Event) : nat :=
  foldr (fun e t => match e with Advance dt => dt + t | _ => t end) 0 events.

(** * Properties *)

(** ** The tables *)

Lemma get_Material_137 :
  JS.get otherMaterialColors "Material.137" = JS.Str "#FFD700".
Proof. by vm_compute. Qed.

Lemma describe_Material_137 :
  JS.get materialDescriptions "Material.137" = JS.Str "Title of obj: ROOF".
Proof. by vm_compute. Qed.

(** The own keys of the colour table. *)
Lemma otherMaterialColors_lookup (k : string) :
  is_Some (otherMaterialColors !! k) <->
  k = "Glass.009" \/ k = "Material.137" \/ k = "Material.136".
Proof.
  unfold otherMaterialColors. rewrite !lookup_insert, lookup_empty.
  repeat case_decide; subst; split; intros Hk;
    try (by eauto); try (by destruct Hk as [? ?]); naive_solver.
Qed.

(** Every own value of the colour table is a non-empty string. *)
Lemma otherMaterialColors_truthy (k v : string) :
  otherMaterialColors !! k = Some v -> JS.truthy (JS.Str v) = true.
Proof.
  unfold otherMaterialColors. rewrite !lookup_insert, lookup_empty.
  repeat case_decide; intros [= <-]; reflexivity.
Qed.

(** Which names pass the test of line 117: the roof name, the three own
    keys of the colour table, and every property name the table inherits
    from [Object.prototype]. *)
Lemma is_clickable_material_spec (mat : Material) :
  is_clickable_material mat = true <->
  mat_name mat ∈ known_names \/ mat_name mat ∈ JS.Object_prototype.
Proof.
  unfold is_clickable_material, JS.get, known_names, roofMaterialName.
  rewrite orb_true_iff, String.eqb_eq.
  destruct (otherMaterialColors !! mat_name mat) as [v|] eqn:E.
  - rewrite (otherMaterialColors_truthy _ _ E).
    assert (is_Some (otherMaterialColors !! mat_name mat)) as Hs by eauto.
    apply otherMaterialColors_lookup in Hs.
    split; [intros _|auto]. left.
    rewrite !elem_of_cons. naive_solver.
  - assert (~ is_Some (otherMaterialColors !! mat_name mat)) as Hn
        by (rewrite E; by intros [? ?]).
    rewrite otherMaterialColors_lookup in Hn.
    case_bool_decide as Hp; simpl.
    + split; auto.
    + rewrite !elem_of_cons, elem_of_nil. split; [naive_solver|].
      intros [H|H]; [|done]. naive_solver.
Qed.

(** ** The overlay element *)

Lemma overlay_present_Some (s : State) :
  overlay_present s = true <-> is_Some (overlay s).
Proof.
  unfold overlay_present. destruct (overlay s); split; intros H; eauto.
  - discriminate.
  - by destruct H.
Qed.

Lemma overlay_style_set_present f s :
  overlay_present (overlay_style_set f s) = overlay_present s.
Proof.
  unfold overlay_style_set, overlay_present.
  by destruct (overlay s) eqn:E; simpl; rewrite ?E.
Qed.

Lemma run_frame_callback_present cb s :
  overlay_present (run_frame_callback cb s) = overlay_present s.
Proof. destruct cb; simpl; auto using overlay_style_set_present. Qed.

Lemma run_timer_callback_present cb s :
  overlay_present (run_timer_callback cb s) = overlay_present s.
Proof. destruct cb; simpl; auto using overlay_style_set_present. Qed.

(** ** One material of the clicked object *)

Lemma click_material_roof mat s :
  roof_branch mat = true ->
  click_material mat s =
    let s1 := color_set mat (JS.Str roofColor) s in
    if overlay_present s1 then
      requestAnimationFrame OverlayFadeIn
        (overlay_style_set (with_display "flex") s1)
    else s1.
Proof. unfold roof_branch, click_material. by intros ->. Qed.

Lemma click_material_info mat s :
  info_branch mat = true ->
  click_material mat s =
    set_materialInfoBox "block"
      (set_materialText
         (JS.or (JS.get materialDescriptions (mat_name mat))
                (JS.Str "Material clicked."))
         (color_set mat (JS.get otherMaterialColors (mat_name mat)) s)).
Proof.
  unfold info_branch, roof_branch, click_material.
  intros [H1 H2]%andb_true_iff. apply negb_true_iff in H1. by rewrite H1, H2.
Qed.

Lemma click_material_other mat s :
  roof_branch mat = false -> info_branch mat = false ->
  click_material mat s = s.
Proof.
  unfold info_branch, roof_branch, click_material. intros ->. simpl.
  by intros ->.
Qed.

(** The three cases, for proofs by cases on the material. *)
Ltac click_cases mat :=
  let R := fresh "Hroof" in
  let I := fresh "Hinfo" in
  destruct (roof_branch mat) eqn:R;
  [ assert (info_branch mat = false) as I
      by (unfold info_branch; rewrite R; reflexivity);
    rewrite ?I, (click_material_roof _ _ R)
  | destruct (info_branch mat) eqn:I;
    [ rewrite (click_material_info _ _ I)
    | rewrite (click_material_other _ _ R I) ] ].

Lemma color_set_overlay mat v s : overlay (color_set mat v s) = overlay s.
Proof. by destruct v. Qed.

Lemma color_set_present mat v s :
  overlay_present (color_set mat v s) = overlay_present s.
Proof. by destruct v. Qed.

Lemma click_material_present mat s :
  overlay_present (click_material mat s) = overlay_present s.
Proof.
  click_cases mat; cbv zeta; [| |done].
  - rewrite color_set_present.
    destruct (overlay_present s) eqn:E; [|by rewrite color_set_present].
    change (overlay_present (overlay_style_set (with_display "flex")
              (color_set mat (JS.Str roofColor) s)) = true).
    by rewrite overlay_style_set_present, color_set_present.
  - change (overlay_present
              (color_set mat (JS.get otherMaterialColors (mat_name mat)) s)
            = overlay_present s).
    apply color_set_present.
Qed.

(** A material named after the roof ends with the roof colour, whatever
    else the click does afterwards. *)
Lemma click_material_roof_color mat s :
  mat_name mat = roofMaterialName ->
  colors (click_material mat s) !! mat = Some roofColor.
Proof.
  intros Hn. rewrite click_material_roof
    by (unfold roof_branch; rewrite Hn; reflexivity).
  cbv zeta. rewrite color_set_present.
  unfold overlay_present, overlay_style_set. rewrite color_set_overlay.
  destruct (overlay s); simpl; apply lookup_insert_eq.
Qed.

Lemma click_material_gold_color mat s :
  mat_name mat = "Material.137" ->
  colors (click_material mat s) !! mat = Some "#FFD700".
Proof.
  intros Hn. rewrite click_material_info
    by (unfold info_branch, roof_branch; rewrite Hn; by vm_compute).
  rewrite Hn, get_Material_137. simpl. apply lookup_insert_eq.
Qed.

(** A click on other materials leaves a material's colour alone. *)
Lemma click_material_color_ne mat mat' s :
  mat' <> mat ->
  colors (click_material mat' s) !! mat = colors s !! mat.
Proof.
  intros Hne. click_cases mat'; cbv zeta; [| |done].
  - rewrite color_set_present.
    unfold overlay_present, overlay_style_set. rewrite color_set_overlay.
    destruct (overlay s); simpl; by rewrite lookup_insert_ne.
  - destruct (JS.get otherMaterialColors (mat_name mat')); simpl; auto.
    by rewrite lookup_insert_ne.
Qed.

(** Unfolds the browser primitives in the goal and splits on what they
    read: the overlay element and the value looked up in a table. *)
Ltac unfold_primitives :=
  cbv zeta; simpl;
  unfold requestAnimationFrame, setTimeout, overlay_style_set,
    overlay_present, overlay_display_is, color_set;
  simpl;
  repeat (match goal with
          | |- context [match overlay ?s with _ => _ end] =>
              let E := fresh "Hoverlay" in
              destruct (overlay s) eqn:E; simpl; rewrite ?E
          | |- context [match JS.get ?t ?k with _ => _ end] =>
              let E := fresh "Hget" in
              destruct (JS.get t k) eqn:E; simpl; rewrite ?E
          end; simpl).

Lemma click_material_info_display mat s :
  materialInfoBox (click_material mat s)
  = if info_branch mat then "block" else materialInfoBox s.
Proof. click_cases mat; unfold_primitives; reflexivity. Qed.

Lemma click_material_info_text mat s :
  materialText (click_material mat s)
  = if info_branch mat
    then JS.or (JS.get materialDescriptions (mat_name mat))
               (JS.Str "Material clicked.")
    else materialText s.
Proof. click_cases mat; unfold_primitives; reflexivity. Qed.

(** The page does not otherwise depend on the click: the load state, the
    scene, the clickable list, the view and the clock are left alone. *)
Lemma click_material_frame mat s :
  let s' := click_material mat s in
  environment s' = environment s /\ pending_load s' = pending_load s
  /\ scene s' = scene s /\ clickableMeshes s' = clickableMeshes s
  /\ camera_aspect s' = camera_aspect s
  /\ projection_aspect s' = projection_aspect s
  /\ renderer_size s' = renderer_size s
  /\ timers s' = timers s /\ now s' = now s /\ rendered s' = rendered s
  /\ uncaught s' = uncaught s.
Proof. click_cases mat; unfold_primitives; repeat split; reflexivity. Qed.

(** ** The whole [forEach] *)

Lemma click_all_cons mat mats s :
  click_all s (mat :: mats) = click_all (click_material mat s) mats.
Proof. reflexivity. Qed.

Lemma click_all_app pre post s :
  click_all s (pre ++ post) = click_all (click_all s pre) post.
Proof. apply foldl_app. Qed.

(** A property established by one material of the list and kept by the
    materials after it holds when the loop is over. *)
Lemma click_all_after (P : State -> Prop) pre mat post s :
  (forall s', P (click_material mat s')) ->
  (forall mat' s', mat' ∈ post -> P s' -> P (click_material mat' s')) ->
  P (click_all s (pre ++ mat :: post)).
Proof.
  intros Hset Hkeep. rewrite click_all_app, click_all_cons.
  generalize (click_material mat (click_all s pre)) (Hset (click_all s pre)).
  clear Hset. induction post as [|mat' post IH]; intros s' Hs'; [done|].
  rewrite click_all_cons. apply IH.
  - intros m1 s1 Hin. apply Hkeep. by right.
  - apply Hkeep; [by left|done].
Qed.

Lemma click_all_keeps (P : State -> Prop) mats s :
  (forall mat' s', mat' ∈ mats -> P s' -> P (click_material mat' s')) ->
  P s -> P (click_all s mats).
Proof.
  revert s. induction mats as [|mat mats IH]; intros s Hkeep Hs; [done|].
  rewrite click_all_cons. apply IH.
  - intros m1 s1 Hin. apply Hkeep. by right.
  - apply Hkeep; [by left|done].
Qed.

Lemma click_all_color mat c mats s :
  (forall s', colors (click_material mat s') !! mat = Some c) ->
  mat ∈ mats ->
  colors (click_all s mats) !! mat = Some c.
Proof.
  intros Hset (pre & post & ->)%list_elem_of_split.
  apply (click_all_after (fun s => colors s !! mat = Some c)); [done|].
  intros mat' s' _ Hs'. destruct (decide (mat' = mat)) as [->|Hne]; [done|].
  by rewrite click_material_color_ne.
Qed.

Lemma click_all_present mats s :
  overlay_present (click_all s mats) = overlay_present s.
Proof.
  apply (click_all_keeps (fun s' => overlay_present s' = overlay_present s));
    [|done].
  intros mat' s' _ <-. apply click_material_present.
Qed.

(** ** Clicks *)

(** C1 (as amended).  When the nearest intersection of a click is an
    object carrying a material named 'Material.137', the click handler
    leaves that material with the colour '#FFD700' and the info panel
    with display 'block'; the info text is "Title of obj: ROOF" when no
    material after it in the object's material list takes the
    colour-table branch under another name (in particular when the object
    has that material alone). *)
Theorem click_Material_137 (s : State) (ray : Ray) hit rest (mat : Material) :
  intersectObjects ray (clickableMeshes s) = hit :: rest ->
  mat ∈ materials_of (object hit) ->
  mat_name mat = "Material.137" ->
  let s' := on_click ray s in
  colors s' !! mat = Some "#FFD700"
  /\ materialInfoBox s' = "block"
  /\ forall pre post,
       materials_of (object hit) = pre ++ mat :: post ->
       (forall mat', mat' ∈ post -> info_branch mat' = true ->
                     mat_name mat' = "Material.137") ->
       materialText s' = JS.Str "Title of obj: ROOF".
Proof.
  intros Hhit Hin Hname s'. subst s'. unfold on_click. rewrite Hhit.
  assert (info_branch mat = true) as Hinfo
      by (unfold info_branch, roof_branch; rewrite Hname; by vm_compute).
  split; [|split].
  - apply click_all_color; [|done].
    intros s'. by apply click_material_gold_color.
  - apply list_elem_of_split in Hin as (pre & post & ->).
    apply (click_all_after (fun s => materialInfoBox s = "block")).
    + intros s'. by rewrite click_material_info_display, Hinfo.
    + intros mat' s' _ Hs'. rewrite click_material_info_display.
      by destruct (info_branch mat').
  - intros pre post -> Hpost.
    apply (click_all_after
             (fun s => materialText s = JS.Str "Title of obj: ROOF")).
    + intros s'. rewrite click_material_info_text, Hinfo, Hname.
      by rewrite describe_Material_137.
    + intros mat' s' Hin' Hs'. rewrite click_material_info_text.
      destruct (info_branch mat') eqn:E; [|done].
      rewrite (Hpost mat' Hin' E). by rewrite describe_Material_137.
Qed.

Lemma click_Material_137_witness :
  let s' := on_click (Sample.ray_at 3) (Sample.loaded true Sample.house) in
  colors s' !! Sample.goldMat = Some "#FFD700"
  /\ materialInfoBox s' = "block"
  /\ materialText s' = JS.Str "Title of obj: ROOF".
Proof.
  pose (tower := Sample.mesh 3
                  (MaterialArray [Sample.roofMat; Sample.goldMat])).
  destruct (click_Material_137 (Sample.loaded true Sample.house)
              (Sample.ray_at 3)
              (Sample.hit tower) [Sample.hit tower] Sample.goldMat)
    as (Hc & Hb & Ht).
  - vm_compute. reflexivity.
  - simpl. set_solver.
  - reflexivity.
  - split; [exact Hc|]. split; [exact Hb|].
    apply (Ht [Sample.roofMat] []); [reflexivity|].
    intros mat' Hin. by apply elem_of_nil in Hin.
Defined.

(** C1 as stated fails on a mesh with two colour-table materials: after a
    click on the facade, whose materials are 'Material.137' and then
    'Glass.009', the info text is the window's. *)
Lemma click_Material_137_counterexample :
  let s := Sample.loaded true Sample.house in
  let ray := Sample.ray_at 2 in
  let facade :=
    Sample.hit (Sample.mesh 2
                  (MaterialArray [Sample.goldMat; Sample.glassMat])) in
  intersectObjects ray (clickableMeshes s) = [facade; facade]
  /\ materials_of (object facade) = [Sample.goldMat; Sample.glassMat]
  /\ mat_name Sample.goldMat = "Material.137"
  /\ materialText (on_click ray s) = JS.Str "Title of obj: WINDOW"
  /\ materialText (on_click ray s) <> JS.Str "Title of obj: ROOF".
Proof. repeat split; by vm_compute. Qed.

(** What an empty intersection means. *)
Lemma insert_asc_not_nil x l : insert_asc x l <> [].
Proof. destruct l; simpl; [done|]. by case_match. Qed.

Lemma ascSort_nil l : ascSort l = [] <-> l = [].
Proof.
  split; [|by intros ->]. destruct l as [|x l]; [done|].
  unfold ascSort. simpl. intros H. by apply insert_asc_not_nil in H.
Qed.

Lemma flat_map_nil {A B} (f : A -> list B) (l : list A) :
  flat_map f l = [] <-> Forall (fun x => f x = []) l.
Proof.
  induction l as [|x l IH]; simpl; [by split|].
  rewrite Forall_cons, <- IH. split.
  - by intros [? ?]%app_eq_nil.
  - by intros [-> ->].
Qed.

Lemma intersectObject_nil (ray : Ray) (o : Object3D) :
  intersectObject ray o = [] <->
  forall d, d ∈ traverse o -> ray (obj_uuid d) = [].
Proof.
  induction o as [o IH] using Object3D_subtree_ind.
  destruct o as [u m ms c r ch]. simpl in *. split.
  - intros [Hself Hch]%app_eq_nil d Hd.
    apply elem_of_cons in Hd as [->|Hd].
    + simpl. by destruct (ray u).
    + apply list_elem_of_In, in_flat_map in Hd as (x & Hx & Hd).
      apply list_elem_of_In in Hx, Hd.
      rewrite flat_map_nil in Hch.
      rewrite Forall_forall in IH, Hch.
      apply (IH x Hx); [by apply Hch|done].
  - intros Hall.
    assert (flat_map (intersectObject ray) ch = []) as ->.
    { apply flat_map_nil, Forall_forall. intros x Hx.
      rewrite Forall_forall in IH. apply (IH x Hx). intros d Hd.
      apply Hall. right. apply list_elem_of_In, in_flat_map.
      exists x. split; by apply list_elem_of_In. }
    assert (ray u = []) as ->; [|done].
    apply (Hall (mkObject3D u m ms c r ch)). by left.
Qed.

(** The handler finds no intersection exactly when the ray meets none of
    the listed meshes and none of their descendants. *)
Lemma intersectObjects_nil (ray : Ray) (objects : list Object3D) :
  intersectObjects ray objects = [] <-> misses ray objects.
Proof.
  unfold intersectObjects, misses.
  rewrite ascSort_nil, flat_map_nil, Forall_forall. split.
  - intros Hall o d Ho. by apply intersectObject_nil, Hall.
  - intros Hall o Ho. apply intersectObject_nil. intros d. by apply Hall.
Qed.

(** With no intersection the handler returns at once (line 142). *)
Lemma click_miss_changes_nothing (s : State) (ray : Ray) :
  intersectObjects ray (clickableMeshes s) = [] ->
  on_click ray s = s
  /\ colors (on_click ray s) = colors s
  /\ overlay (on_click ray s) = overlay s
  /\ materialInfoBox (on_click ray s) = materialInfoBox s
  /\ materialText (on_click ray s) = materialText s.
Proof.
  intros Hmiss. assert (on_click ray s = s) as ->; [|done].
  unfold on_click. by rewrite Hmiss.
Qed.

(** What one material of the clicked object does to the overlay and to
    the frame callbacks. *)
Lemma click_material_overlay mat s :
  overlay (click_material mat s)
  = if roof_branch mat then with_display "flex" <$> overlay s else overlay s.
Proof. click_cases mat; unfold_primitives; reflexivity. Qed.

Lemma click_material_raf mat s :
  raf_queue (click_material mat s)
  = raf_queue s ++ (if roof_branch mat && overlay_present s
                    then [OverlayFadeIn] else []).
Proof.
  click_cases mat; unfold_primitives; rewrite ?app_nil_r; reflexivity.
Qed.

(** ** Frames and timers *)

Lemma run_frame_callback_overlay cb s :
  overlay (run_frame_callback cb s)
  = match cb with
    | OverlayFadeIn => with_opacity "1" <$> overlay s
    | Animate => overlay s
    end.
Proof. destruct cb; unfold_primitives; reflexivity. Qed.

Lemma run_timer_callback_overlay cb s :
  overlay (run_timer_callback cb s) = with_display "none" <$> overlay s.
Proof. destruct cb; unfold_primitives; reflexivity. Qed.

Lemma run_frame_callback_raf cb s :
  raf_queue (run_frame_callback cb s)
  = raf_queue s ++ match cb with Animate => [Animate] | _ => [] end.
Proof. destruct cb; unfold_primitives; rewrite ?app_nil_r; reflexivity. Qed.

Lemma run_frame_callback_frame cb s :
  let s' := run_frame_callback cb s in
  timers s' = timers s /\ now s' = now s /\ colors s' = colors s
  /\ clickableMeshes s' = clickableMeshes s
  /\ pending_load s' = pending_load s /\ environment s' = environment s
  /\ scene s' = scene s /\ materialInfoBox s' = materialInfoBox s
  /\ materialText s' = materialText s.
Proof. destruct cb; unfold_primitives; repeat split; reflexivity. Qed.

Lemma run_timer_callback_frame cb s :
  let s' := run_timer_callback cb s in
  timers s' = timers s /\ now s' = now s /\ colors s' = colors s
  /\ clickableMeshes s' = clickableMeshes s
  /\ pending_load s' = pending_load s /\ environment s' = environment s
  /\ scene s' = scene s /\ materialInfoBox s' = materialInfoBox s
  /\ materialText s' = materialText s /\ raf_queue s' = raf_queue s.
Proof. destruct cb; unfold_primitives; repeat split; reflexivity. Qed.

(** Folding a handler over a list: an invariant [I] is kept, and a
    property [P] that one element establishes and all keep holds at the
    end. *)
Lemma foldl_keeps {A} (f : State -> A -> State) (I : State -> Prop) l s :
  (forall x s', I s' -> I (f s' x)) -> I s -> I (foldl f s l).
Proof.
  intros Hkeep. revert s. induction l as [|x l IH]; intros s Hs; [done|].
  simpl. by apply IH, Hkeep.
Qed.

Lemma foldl_establishes {A} (f : State -> A -> State)
    (I P : State -> Prop) l x s :
  (forall y s', I s' -> I (f s' y)) ->
  (forall s', I s' -> P (f s' x)) ->
  (forall y s', I s' -> P s' -> P (f s' y)) ->
  x ∈ l -> I s -> P (foldl f s l).
Proof.
  intros HI Hset Hkeep (pre & post & ->)%list_elem_of_split Hs.
  rewrite foldl_app. simpl.
  assert (I (foldl f s pre)) as Hpre by by apply foldl_keeps.
  assert (I (f (foldl f s pre) x) /\ P (f (foldl f s pre) x)) as Hx
      by (split; [by apply HI|by apply Hset]).
  revert Hx. generalize (f (foldl f s pre) x). clear Hpre Hs.
  induction post as [|y post IH]; intros s' [Hi Hp]; [done|].
  simpl. apply IH. split; [by apply HI|by apply Hkeep].
Qed.

(** Once an [OverlayFadeIn] has run, the opacity stays '1' to the end of
    the frame. *)
Lemma callbacks_fade_in (cbs : list FrameCallback) (s : State) :
  overlay_present s = true ->
  OverlayFadeIn ∈ cbs ->
  opacity <$> overlay (foldl (fun s cb => run_frame_callback cb s) s cbs)
  = Some "1".
Proof.
  intros Hp Hin.
  apply (foldl_establishes _ (fun s' => overlay_present s' = true)
           (fun s' => opacity <$> overlay s' = Some "1") cbs OverlayFadeIn);
    try done.
  - intros cb s' Hs'. by rewrite run_frame_callback_present.
  - intros s' Hs'. rewrite run_frame_callback_overlay.
    apply overlay_present_Some in Hs' as [st ->]. reflexivity.
  - intros cb s' Hs' Ho. rewrite run_frame_callback_overlay.
    destruct cb; [done|]. apply overlay_present_Some in Hs' as [st ->].
    reflexivity.
Qed.

Lemma on_frame_fades_in (s : State) :
  overlay_present s = true ->
  OverlayFadeIn ∈ raf_queue s ->
  opacity <$> overlay (on_frame s) = Some "1".
Proof. intros Hp Hin. unfold on_frame. by apply callbacks_fade_in. Qed.

(** A frame leaves the overlay's display alone. *)
Lemma on_frame_display (s : State) :
  display <$> overlay (on_frame s) = display <$> overlay s.
Proof.
  unfold on_frame.
  apply (foldl_keeps _
           (fun s' => display <$> overlay s' = display <$> overlay s));
    [|done].
  intros cb s' <-. rewrite run_frame_callback_overlay.
  destruct cb; [done|]. by destruct (overlay s').
Qed.

(** A frame never lowers an opacity of '1'. *)
Lemma on_frame_keeps_opacity (s : State) :
  opacity <$> overlay s = Some "1" ->
  opacity <$> overlay (on_frame s) = Some "1".
Proof.
  intros Ho. unfold on_frame.
  apply (foldl_keeps _ (fun s' => opacity <$> overlay s' = Some "1"));
    [|done].
  intros cb s' Hs'. rewrite run_frame_callback_overlay.
  destruct cb; [done|]. by destruct (overlay s').
Qed.

(** ** What every event keeps *)

Lemma frame_callbacks_present (l : list FrameCallback) (s : State) :
  overlay_present (foldl (fun s cb => run_frame_callback cb s) s l)
  = overlay_present s.
Proof.
  apply (foldl_keeps _ (fun s' => overlay_present s' = overlay_present s));
    [|done].
  intros x s' <-. apply run_frame_callback_present.
Qed.

Lemma timer_callbacks_present (l : list (nat * TimerCallback)) (s : State) :
  overlay_present (foldl (fun s p => run_timer_callback p.2 s) s l)
  = overlay_present s.
Proof.
  apply (foldl_keeps _ (fun s' => overlay_present s' = overlay_present s));
    [|done].
  intros x s' <-. apply run_timer_callback_present.
Qed.

(** What a key press does to each part of the page it can touch. *)
Lemma on_keydown_other key s :
  String.eqb key "Escape" = false -> on_keydown key s = s.
Proof. unfold on_keydown. by intros ->. Qed.

Lemma on_keydown_overlay s :
  overlay (on_keydown "Escape" s)
  = if overlay_display_is "flex" s
    then with_opacity "0" <$> overlay s else overlay s.
Proof.
  unfold on_keydown, overlay_present, overlay_display_is, overlay_style_set,
    setTimeout. simpl.
  destruct (overlay s) as [st|] eqn:E; simpl.
  - destruct (String.eqb (display st) "flex"); simpl;
      destruct (String.eqb (materialInfoBox s) "block"); simpl;
      by rewrite ?E.
  - destruct (String.eqb (materialInfoBox s) "block"); simpl; by rewrite ?E.
Qed.

Lemma on_keydown_timers s :
  timers (on_keydown "Escape" s)
  = timers s ++ (if overlay_display_is "flex" s
                 then [(now s + 300, OverlayHide)] else []).
Proof.
  unfold on_keydown, overlay_present, overlay_display_is, overlay_style_set,
    setTimeout. simpl.
  destruct (overlay s) as [st|] eqn:E; simpl.
  - destruct (String.eqb (display st) "flex"); simpl;
      destruct (String.eqb (materialInfoBox s) "block"); simpl;
      by rewrite ?E, ?app_nil_r.
  - destruct (String.eqb (materialInfoBox s) "block"); simpl;
      by rewrite ?app_nil_r.
Qed.

Lemma on_keydown_info s :
  materialInfoBox (on_keydown "Escape" s)
  = if String.eqb (materialInfoBox s) "block" then "none"
    else materialInfoBox s.
Proof.
  unfold on_keydown, overlay_present, overlay_display_is, overlay_style_set,
    setTimeout. simpl.
  destruct (overlay s) as [st|] eqn:E; simpl.
  - destruct (String.eqb (display st) "flex"); simpl; rewrite ?E; simpl;
      by destruct (String.eqb (materialInfoBox s) "block").
  - by destruct (String.eqb (materialInfoBox s) "block").
Qed.

Lemma on_keydown_frame key s :
  let s' := on_keydown key s in
  raf_queue s' = raf_queue s /\ now s' = now s /\ uncaught s' = uncaught s
  /\ colors s' = colors s /\ clickableMeshes s' = clickableMeshes s
  /\ pending_load s' = pending_load s /\ environment s' = environment s
  /\ scene s' = scene s.
Proof.
  unfold on_keydown, overlay_present, overlay_display_is, overlay_style_set,
    setTimeout. simpl.
  destruct (String.eqb key "Escape"); [|done].
  destruct (overlay s) as [st|] eqn:E; simpl.
  - destruct (String.eqb (display st) "flex"); simpl; rewrite ?E; simpl;
      by destruct (String.eqb (materialInfoBox s) "block").
  - by destruct (String.eqb (materialInfoBox s) "block").
Qed.

Lemma on_keydown_present key s :
  overlay_present (on_keydown key s) = overlay_present s.
Proof.
  destruct (String.eqb key "Escape") eqn:E;
    [|by rewrite on_keydown_other].
  apply String.eqb_eq in E as ->.
  unfold overlay_present at 1. rewrite on_keydown_overlay.
  unfold overlay_display_is, overlay_present.
  destruct (overlay s) as [st|]; [|done].
  by destruct (String.eqb (display st) "flex").
Qed.

(** No event adds or removes the overlay element. *)
Lemma step_present (s : State) (e : Event) :
  overlay_present (step s e) = overlay_present s.
Proof.
  destruct e; simpl; try done.
  - by case_decide.
  - by case_decide.
  - unfold on_click. case_match; [done|]. apply click_all_present.
  - apply on_keydown_present.
  - unfold on_frame. by rewrite frame_callbacks_present.
  - unfold on_advance. by rewrite timer_callbacks_present.
Qed.

Lemma run_present (s : State) (events : list Event) :
  overlay_present (run s events) = overlay_present s.
Proof.
  apply (foldl_keeps _ (fun s' => overlay_present s' = overlay_present s));
    [|done].
  intros e s' <-. apply step_present.
Qed.

Lemma on_advance_raf (dt : nat) (s : State) :
  raf_queue (on_advance dt s) = raf_queue s.
Proof.
  unfold on_advance.
  apply (foldl_keeps _ (fun s' => raf_queue s' = raf_queue s)); [|done].
  intros p s' <-. apply run_timer_callback_frame.
Qed.

(** Apart from a frame, no event takes a callback off the frame queue. *)
Lemma step_raf_mono (s : State) (e : Event) (cb : FrameCallback) :
  e <> Frame -> cb ∈ raf_queue s -> cb ∈ raf_queue (step s e).
Proof.
  intros Hne Hin. destruct e; simpl; try done.
  - by case_decide.
  - by case_decide.
  - unfold on_click. case_match; [done|].
    apply (foldl_keeps _ (fun s' => cb ∈ raf_queue s')); [|done].
    intros mat s' Hs'. rewrite click_material_raf. set_solver.
  - by rewrite (proj1 (on_keydown_frame key s)).
  - by rewrite on_advance_raf.
Qed.

Lemma run_raf_mono (s : State) (events : list Event) (cb : FrameCallback) :
  Frame ∉ events -> cb ∈ raf_queue s -> cb ∈ raf_queue (run s events).
Proof.
  revert s. induction events as [|e events IH]; intros s Hnf Hin; [done|].
  simpl. apply IH; [set_solver|]. apply step_raf_mono; [|done].
  intros ->. apply Hnf. by left.
Qed.

(** What the loop over the materials of a roof mesh does to an overlay
    that exists. *)
Lemma click_all_roof_overlay (s : State) (mats : list Material) roof :
  roof ∈ mats ->
  roof_branch roof = true ->
  overlay_present s = true ->
  display <$> overlay (click_all s mats) = Some "flex"
  /\ opacity <$> overlay (click_all s mats) = opacity <$> overlay s
  /\ OverlayFadeIn ∈ raf_queue (click_all s mats).
Proof.
  intros Hroof Hbranch Hp. unfold click_all. split; [|split].
  - apply (foldl_establishes _ (fun s' => overlay_present s' = true)
             (fun s' => display <$> overlay s' = Some "flex") _ roof);
      try done.
    + intros mat s' Hs'. by rewrite click_material_present.
    + intros s' Hs'. rewrite click_material_overlay, Hbranch.
      apply overlay_present_Some in Hs' as [st ->]. reflexivity.
    + intros mat s' Hs' Hd. rewrite click_material_overlay.
      destruct (roof_branch mat); [|done].
      apply overlay_present_Some in Hs' as [st ->]. reflexivity.
  - apply (foldl_keeps _
             (fun s' => opacity <$> overlay s' = opacity <$> overlay s));
      [|done].
    intros mat s' <-. rewrite click_material_overlay.
    destruct (roof_branch mat); [|done]. by destruct (overlay s').
  - apply (foldl_establishes _ (fun s' => overlay_present s' = true)
             (fun s' => OverlayFadeIn ∈ raf_queue s') _ roof); try done.
    + intros mat s' Hs'. by rewrite click_material_present.
    + intros s' Hs'. rewrite click_material_raf, Hbranch, Hs'. set_solver.
    + intros mat s' _ Hs'. rewrite click_material_raf. set_solver.
Qed.

(** C2.  When the nearest intersection of a click is the roof mesh (an
    object with a material named 'genting.004'), every material of that
    object named 'genting.004' ends with the roof colour '#5CA9E9', and
    the overlay element is revealed in two steps: the click sets its
    display to 'flex', leaves its opacity as it was and queues the
    fade-in for the next frame; whatever happens before that frame, the
    frame sets the opacity to '1'. *)
Theorem roof_click_reveals_overlay (s : State) (ray : Ray) hit rest :
  intersectObjects ray (clickableMeshes s) = hit :: rest ->
  (exists mat, mat ∈ materials_of (object hit)
               /\ mat_name mat = "genting.004") ->
  let s1 := on_click ray s in
  (forall mat, mat ∈ materials_of (object hit) ->
               mat_name mat = "genting.004" ->
               colors s1 !! mat = Some "#5CA9E9")
  /\ forall st, overlay s = Some st ->
       overlay s1 = Some {| display := "flex"; opacity := opacity st |}
       /\ OverlayFadeIn ∈ raf_queue s1
       /\ forall events, Frame ∉ events ->
            opacity <$> overlay (on_frame (run s1 events)) = Some "1".
Proof.
  intros Hhit (roof & Hroof & Hname) s1.
  assert (s1 = click_all s (materials_of (object hit))) as Hs1
      by (subst s1; unfold on_click; by rewrite Hhit).
  assert (roof_branch roof = true) as Hbranch
      by (unfold roof_branch; rewrite Hname; reflexivity).
  split.
  - intros mat Hin Hn. rewrite Hs1. apply click_all_color; [|done].
    intros s'. by apply click_material_roof_color.
  - intros st Ho.
    assert (overlay_present s = true) as Hp
        by (apply overlay_present_Some; rewrite Ho; eauto).
    destruct (click_all_roof_overlay s _ roof Hroof Hbranch Hp)
      as (Hd & Hop & Hraf).
    rewrite <- Hs1 in Hd, Hop, Hraf. rewrite Ho in Hop.
    split; [|split; [exact Hraf|]].
    + destruct (overlay s1) as [[d1 o1]|]; simpl in *; congruence.
    + intros events Hnf. apply on_frame_fades_in.
      * by rewrite run_present, Hs1, click_all_present.
      * by apply run_raf_mono.
Qed.

Lemma roof_click_reveals_overlay_witness :
  let s1 := on_click (Sample.ray_at 1) (Sample.loaded true Sample.house) in
  colors s1 !! Sample.roofMat = Some "#5CA9E9"
  /\ overlay s1 = Some {| display := "flex"; opacity := "0" |}
  /\ opacity <$> overlay (on_frame (run s1 [KeyDown "Escape"; Advance 20]))
     = Some "1".
Proof.
  pose (roof := Sample.mesh 1 (SingleMaterial Sample.roofMat)).
  destruct (roof_click_reveals_overlay (Sample.loaded true Sample.house)
              (Sample.ray_at 1) (Sample.hit roof) [])
    as (Hc & Hov).
  - by vm_compute.
  - exists Sample.roofMat. split; [simpl; set_solver|reflexivity].
  - destruct (Hov {| display := "none"; opacity := "0" |} eq_refl)
      as (Hd & _ & Hf).
    split; [apply Hc; [simpl; set_solver|reflexivity]|].
    split; [exact Hd|]. apply Hf. set_solver.
Defined.

(** ** The Escape key *)

Lemma on_advance_hides (s : State) (dt t : nat) :
  overlay_present s = true ->
  (t, OverlayHide) ∈ timers s ->
  t <= now s + dt ->
  display <$> overlay (on_advance dt s) = Some "none".
Proof.
  intros Hp Hin Hdue. unfold on_advance.
  apply (foldl_establishes _ (fun s' => overlay_present s' = true)
           (fun s' => display <$> overlay s' = Some "none") _
           (t, OverlayHide)); try done.
  - intros p s' Hs'. by rewrite run_timer_callback_present.
  - intros s' Hs'. rewrite run_timer_callback_overlay.
    apply overlay_present_Some in Hs' as [st ->]. reflexivity.
  - intros p s' Hs' Hd. rewrite run_timer_callback_overlay.
    apply overlay_present_Some in Hs' as [st ->]. reflexivity.
  - apply list_elem_of_filter. split; [exact Hdue|exact Hin].
Qed.

(** While no timer is due, time passing changes nothing but the clock. *)
Lemma on_advance_idle (s : State) (dt : nat) :
  Forall (fun p => now s + dt < p.1) (timers s) ->
  on_advance dt s = set_now (now s + dt) s.
Proof.
  intros Hall. unfold on_advance.
  assert (filter (fun p : nat * TimerCallback => p.1 <= now s + dt) (timers s)
          = []) as ->.
  { induction Hall as [|p l Hp _ IH]; [done|].
    rewrite filter_cons. case_decide; [lia|done]. }
  assert (filter (fun p : nat * TimerCallback => ~ p.1 <= now s + dt)
            (timers s) = timers s) as ->.
  { induction Hall as [|p l Hp _ IH]; [done|].
    rewrite filter_cons. case_decide; [by rewrite IH|lia]. }
  simpl. by destruct s.
Qed.

(** C4.  A press of Escape while the overlay is visible (display 'flex')
    sets its opacity to '0' at once, leaving the display at 'flex', and
    sets a timer 300 ms ahead that sets the display to 'none': once 300 ms
    or more have passed the display is 'none', and with no older timer
    pending nothing changes before that.  The info panel, if its display
    is 'block', is set to 'none' at once; otherwise it is left as it is. *)
Theorem escape_hides_panels (s : State) (st : Style) :
  overlay s = Some st ->
  display st = "flex" ->
  let s' := on_keydown "Escape" s in
  overlay s' = Some {| display := "flex"; opacity := "0" |}
  /\ timers s' = timers s ++ [(now s + 300, OverlayHide)]
  /\ (forall dt, 300 <= dt ->
        display <$> overlay (on_advance dt s') = Some "none")
  /\ (forall dt, dt < 300 -> timers s = [] ->
        overlay (on_advance dt s') = overlay s')
  /\ (materialInfoBox s = "block" -> materialInfoBox s' = "none")
  /\ (materialInfoBox s <> "block" -> materialInfoBox s' = materialInfoBox s).
Proof.
  intros Ho Hd s'.
  assert (overlay_display_is "flex" s = true) as Hflex
      by (unfold overlay_display_is; rewrite Ho, Hd; reflexivity).
  assert (overlay s' = Some {| display := "flex"; opacity := "0" |}) as Ho'.
  { subst s'. rewrite on_keydown_overlay, Hflex, Ho. simpl.
    unfold with_opacity. by rewrite Hd. }
  assert (timers s' = timers s ++ [(now s + 300, OverlayHide)]) as Ht'
      by (subst s'; by rewrite on_keydown_timers, Hflex).
  assert (now s' = now s) as Hnow
      by (subst s'; apply (on_keydown_frame "Escape" s)).
  repeat split; try done.
  - intros dt Hdt. apply (on_advance_hides s' dt (now s + 300)).
    + apply overlay_present_Some. rewrite Ho'. eauto.
    + rewrite Ht'. set_solver.
    + lia.
  - intros dt Hdt Hnone. rewrite on_advance_idle; [done|].
    rewrite Ht', Hnone, Hnow. simpl. repeat constructor. simpl. lia.
  - intros Hb. subst s'. rewrite on_keydown_info, Hb. reflexivity.
  - intros Hb. subst s'. rewrite on_keydown_info.
    destruct (String.eqb (materialInfoBox s) "block") eqn:E; [|done].
    by apply String.eqb_eq in E.
Qed.

Lemma escape_hides_panels_witness :
  let s := run (Sample.loaded true Sample.house)
               [Click (Sample.ray_at 1); Click (Sample.ray_at 3); Frame] in
  let s' := on_keydown "Escape" s in
  overlay s = Some {| display := "flex"; opacity := "1" |}
  /\ materialInfoBox s = "block"
  /\ overlay s' = Some {| display := "flex"; opacity := "0" |}
  /\ materialInfoBox s' = "none"
  /\ display <$> overlay (on_advance 300 s') = Some "none"
  /\ overlay (on_advance 299 s') = overlay s'.
Proof.
  intros s s'.
  destruct (escape_hides_panels s {| display := "flex"; opacity := "1" |})
    as (Ho & _ & Hlate & Hearly & Hinfo & _).
  - by vm_compute.
  - reflexivity.
  - split; [by vm_compute|]. split; [by vm_compute|].
    split; [exact Ho|]. split; [apply Hinfo; by vm_compute|].
    split; [apply Hlate; lia|]. apply Hearly; [lia|by vm_compute].
Defined.

(** ** Resizing *)

(** C7.  A resize to a window of [w] by [h] sets the camera's aspect
    ratio to the quotient [w / h] of the two numbers (the double that the
    division of the double of [w] by the double of [h] gives), brings the
    projection up to date with it and sets the size of the drawing
    surface to [(w, h)]; a second resize to the same size leaves the
    state the first one produced. *)
Theorem resize_sets_view_idempotent (w h : N) (s : State) :
  let s' := on_resize w h s in
  camera_aspect s'
  = (SF2Prim (binary_normalize prec emax (Z.of_N w) 0 false)
     / SF2Prim (binary_normalize prec emax (Z.of_N h) 0 false))%float
  /\ projection_aspect s' = camera_aspect s'
  /\ renderer_size s' = (w, h)
  /\ on_resize w h s' = s'.
Proof.
  intros s'. split; [reflexivity|]. split; [reflexivity|].
  split; [reflexivity|]. subst s'. unfold on_resize. reflexivity.
Qed.

(** The quotient is the double of the page: 800 by 600 gives
    1.3333333333333333, a window without height gives [Infinity], and an
    empty one [NaN]. *)
Lemma resize_quotients (s : State) :
  camera_aspect (on_resize 800 600 s) = 0x1.5555555555555p+0%float
  /\ camera_aspect (on_resize 800 0 s) = infinity
  /\ camera_aspect (on_resize 0 0 s) = nan.
Proof. repeat split; reflexivity. Qed.

(** ** Loading *)

Lemma click_all_loading_part mats s :
  loading_part (click_all s mats) = loading_part s.
Proof.
  unfold click_all.
  apply (foldl_keeps _ (fun s' => loading_part s' = loading_part s)); [|done].
  intros mat s' <-. unfold loading_part.
  destruct (click_material_frame mat s') as (-> & -> & -> & -> & _). done.
Qed.

Lemma on_frame_loading_part s : loading_part (on_frame s) = loading_part s.
Proof.
  unfold on_frame.
  apply (foldl_keeps _ (fun s' => loading_part s' = loading_part s)); [|done].
  intros cb s' <-. unfold loading_part.
  destruct (run_frame_callback_frame cb s')
    as (_ & _ & _ & -> & -> & -> & -> & _). done.
Qed.

Lemma on_advance_loading_part dt s :
  loading_part (on_advance dt s) = loading_part s.
Proof.
  unfold on_advance.
  apply (foldl_keeps _ (fun s' => loading_part s' = loading_part s)); [|done].
  intros cb s' <-. unfold loading_part.
  destruct (run_timer_callback_frame cb.2 s')
    as (_ & _ & _ & -> & -> & -> & -> & _). done.
Qed.

(** Only the two load callbacks write the environment, the request in
    flight, the scene and the clickable list. *)
Lemma step_loading_part (s : State) (e : Event) :
  match e with
  | EnvLoaded _ => pending_load s <> Some EnvHdr
  | ModelLoaded _ => pending_load s <> Some ModelGlb
  | _ => True
  end ->
  loading_part (step s e) = loading_part s.
Proof.
  destruct e; simpl; intros He.
  - by case_decide.
  - by case_decide.
  - unfold on_click. case_match; [done|]. apply click_all_loading_part.
  - unfold loading_part.
    destruct (on_keydown_frame key s) as (_ & _ & _ & _ & -> & -> & -> & ->).
    done.
  - done.
  - done.
  - apply on_frame_loading_part.
  - apply on_advance_loading_part.
Qed.

Lemma loading_invariant_init found w h : loading_invariant (init found w h).
Proof. split; simpl; [congruence|done]. Qed.

Lemma loading_invariant_step (s : State) (e : Event) :
  loading_invariant s -> loading_invariant (step s e).
Proof.
  intros [Henv Hempty].
  assert (loading_part (step s e) = loading_part s ->
          loading_invariant (step s e)) as Hsame.
  { unfold loading_part, loading_invariant. intros [= -> -> -> ->]. done. }
  destruct e; try (apply Hsame, step_loading_part; done).
  - simpl. case_decide as Hp; [|by split].
    split; simpl; [eauto|]. intros _. apply Hempty. congruence.
  - simpl. case_decide as Hp; [|by split].
    split; simpl; [|done]. intros _. apply Henv. congruence.
Qed.

Lemma loading_invariant_run (s : State) (events : list Event) :
  loading_invariant s -> loading_invariant (run s events).
Proof. apply foldl_keeps. intros e s'. apply loading_invariant_step. Qed.

(** C6.  In every state the page reaches, if the model load has begun
    (the request in flight is no longer the environment's) the
    environment is installed on the scene; and as long as a load is in
    flight the clickable list is empty, so a click leaves the page as it
    is. *)
Theorem model_load_follows_environment
    (found : bool) (w h : N) (events : list Event) :
  let s := run (init found w h) events in
  (pending_load s <> Some EnvHdr -> is_Some (environment s))
  /\ (pending_load s <> None ->
      clickableMeshes s = [] /\ forall ray, step s (Click ray) = s).
Proof.
  intros s.
  destruct (loading_invariant_run (init found w h) events
              (loading_invariant_init found w h)) as [Henv Hempty].
  split; [exact Henv|]. intros Hp. destruct (Hempty Hp) as [Hc _].
  split; [exact Hc|]. intros ray.
  change (on_click ray s = s). unfold on_click. fold s in Hc. by rewrite Hc.
Qed.

Lemma model_load_follows_environment_witness :
  let s := run (init true 800 600)
               [Click (Sample.ray_at 1); EnvLoaded 7; KeyDown "Escape"] in
  pending_load s = Some ModelGlb
  /\ environment s = Some 7
  /\ clickableMeshes s = []
  /\ step s (Click (Sample.ray_at 1)) = s.
Proof.
  intros s.
  destruct (model_load_follows_environment true 800 600
              [Click (Sample.ray_at 1); EnvLoaded 7; KeyDown "Escape"])
    as [Henv Hempty].
  fold s in Henv, Hempty.
  assert (pending_load s = Some ModelGlb) as Hp by reflexivity.
  split; [exact Hp|]. split.
  - destruct Henv as [t Ht]; [by rewrite Hp|]. rewrite Ht.
    by vm_compute in Ht.
  - destruct Hempty as [Hc Hclick]; [by rewrite Hp|]. split; [exact Hc|].
    apply Hclick.
Defined.

(** ** A page without the overlay element *)

(** The two callbacks that touch the overlay do so unguarded: run on a
    page without the element, each is an uncaught [TypeError]. *)
Lemma overlay_callbacks_need_element (s : State) :
  overlay s = None ->
  uncaught (run_frame_callback OverlayFadeIn s) = S (uncaught s)
  /\ uncaught (run_timer_callback OverlayHide s) = S (uncaught s).
Proof. intros Ho. simpl. unfold overlay_style_set. by rewrite Ho. Qed.

Lemma no_overlay_init w h : no_overlay (init false w h).
Proof. repeat split; simpl; auto. Qed.

Lemma no_overlay_click_material mat s :
  no_overlay s -> no_overlay (click_material mat s).
Proof.
  intros (Ho & Hu & Hraf & Ht). unfold no_overlay.
  rewrite click_material_overlay, click_material_raf.
  destruct (click_material_frame mat s)
    as (_ & _ & _ & _ & _ & _ & _ & -> & _ & _ & ->).
  unfold overlay_present. rewrite Ho, andb_false_r, app_nil_r.
  by destruct (roof_branch mat).
Qed.

Lemma no_overlay_animate l s :
  Forall (eq Animate) l -> no_overlay s ->
  no_overlay (foldl (fun s cb => run_frame_callback cb s) s l).
Proof.
  intros Hl. revert s. induction Hl as [|cb l <- _ IH]; intros s Hs; [done|].
  simpl foldl. apply IH. destruct Hs as (Ho & Hu & Hraf & Ht).
  repeat split; simpl; try done.
  unfold requestAnimationFrame; simpl. apply Forall_app. by split; [|repeat constructor].
Qed.

Lemma no_overlay_step (s : State) (e : Event) :
  no_overlay s -> no_overlay (step s e).
Proof.
  intros Hs. destruct e; simpl.
  - case_decide; [|done]. destruct Hs as (? & ? & ? & ?). by repeat split.
  - case_decide; [|done]. destruct Hs as (? & ? & ? & ?). by repeat split.
  - unfold on_click. case_match; [done|]. unfold click_all.
    apply foldl_keeps; [|done]. intros mat s'. apply no_overlay_click_material.
  - destruct (String.eqb key "Escape") eqn:E;
      [|by rewrite on_keydown_other].
    apply String.eqb_eq in E as ->. destruct Hs as (Ho & Hu & Hraf & Ht).
    unfold no_overlay. rewrite on_keydown_overlay, on_keydown_timers.
    destruct (on_keydown_frame "Escape" s) as (-> & _ & -> & _).
    unfold overlay_display_is. rewrite Ho, app_nil_r. done.
  - destruct Hs as (? & ? & ? & ?). by repeat split.
  - destruct Hs as (? & ? & ? & ?). by repeat split.
  - unfold on_frame. apply no_overlay_animate; [apply Hs|].
    destruct Hs as (? & ? & ? & ?). by repeat split.
  - destruct Hs as (Ho & Hu & Hraf & Ht). unfold on_advance.
    rewrite Ht. simpl. by repeat split.
Qed.

Lemma no_overlay_run (s : State) (events : list Event) :
  no_overlay s -> no_overlay (run s events).
Proof. apply foldl_keeps. intros e s'. apply no_overlay_step. Qed.

(** C9.  On a page without the overlay element, whatever events arrive,
    no handler or callback dereferences the missing element (there is no
    uncaught [TypeError], and the overlay stays absent), and a click on
    the roof still gives every material named 'genting.004' the roof
    colour. *)
Theorem missing_overlay_is_tolerated (w h : N) (events : list Event) :
  let s := run (init false w h) events in
  overlay s = None
  /\ uncaught s = 0
  /\ forall ray hit rest mat,
       intersectObjects ray (clickableMeshes s) = hit :: rest ->
       mat ∈ materials_of (object hit) ->
       mat_name mat = "genting.004" ->
       colors (on_click ray s) !! mat = Some "#5CA9E9"
       /\ uncaught (on_click ray s) = 0.
Proof.
  intros s.
  destruct (no_overlay_run (init false w h) events (no_overlay_init w h))
    as (Ho & Hu & _).
  split; [exact Ho|]. split; [exact Hu|].
  intros ray hit rest mat Hhit Hin Hname. split.
  - unfold on_click. rewrite Hhit. apply click_all_color; [|done].
    intros s'. by apply click_material_roof_color.
  - apply (no_overlay_step s (Click ray)).
    apply no_overlay_run, no_overlay_init.
Qed.

Lemma missing_overlay_is_tolerated_witness :
  let s := run (init false 800 600)
               [EnvLoaded 0; ModelLoaded Sample.house; KeyDown "Escape";
                Click (Sample.ray_at 3); Frame; Advance 400] in
  overlay s = None
  /\ uncaught s = 0
  /\ colors (on_click (Sample.ray_at 1) s) !! Sample.roofMat = Some "#5CA9E9"
  /\ uncaught (on_click (Sample.ray_at 1) s) = 0.
Proof.
  intros s.
  destruct (missing_overlay_is_tolerated 800 600
              [EnvLoaded 0; ModelLoaded Sample.house; KeyDown "Escape";
               Click (Sample.ray_at 3); Frame; Advance 400])
    as (Ho & Hu & Hclick).
  split; [exact Ho|]. split; [exact Hu|].
  apply (Hclick (Sample.ray_at 1)
           (Sample.hit (Sample.mesh 1 (SingleMaterial Sample.roofMat))) []).
  - by vm_compute.
  - apply list_elem_of_here.
  - reflexivity.
Defined.

(** ** Showing and hiding in quick succession *)

Lemma on_frame_timers (s : State) : timers (on_frame s) = timers s.
Proof.
  unfold on_frame.
  apply (foldl_keeps _ (fun s' => timers s' = timers s)); [|done].
  intros cb s' <-. apply run_frame_callback_frame.
Qed.

Lemma with_display_same (v : string) (st : Style) :
  display st = v -> with_display v st = st.
Proof. intros <-. by destruct st. Qed.

(** C8 as stated fails: Escape, a click on the roof 100 ms later, a frame,
    and the 300 ms of the first hide run out.  After the click and the
    frame the overlay is shown, as the last operation asked; the timer of
    the earlier hide then sets its display to 'none'. *)
Lemma show_after_hide_counterexample :
  let roof := Sample.ray_at 1 in
  let reshown :=
    run (Sample.loaded true Sample.house)
        [Click roof; Frame; KeyDown "Escape"; Advance 100; Click roof; Frame] in
  overlay reshown = Some {| display := "flex"; opacity := "1" |}
  /\ timers reshown = [(300, OverlayHide)]
  /\ overlay (step reshown (Advance 200))
     = Some {| display := "none"; opacity := "1" |}.
Proof. by vm_compute. Qed.

(** ** The clickable list *)

(** What the model callback leaves in the list: the entries of each
    visited object, in traversal order, after what was there. *)
Lemma on_model_loaded_clickable (gltf_scene : Object3D) (s : State) :
  clickableMeshes (on_model_loaded gltf_scene s)
  = clickableMeshes s
    ++ flat_map clickable_entries (traverse (tag_shadows gltf_scene)).
Proof. reflexivity. Qed.

(** A mesh is pushed once for each material that passes the test. *)
Lemma clickable_entries_mesh (child : Object3D) :
  isMesh child = true ->
  clickable_entries child
  = replicate
      (length (filter (fun mat => is_clickable_material mat = true)
                      (materials_of child)))
      child.
Proof.
  unfold clickable_entries. intros ->.
  induction (materials_of child) as [|mat mats IH]; [done|].
  simpl. rewrite filter_cons, IH.
  destruct (is_clickable_material mat); by case_decide.
Qed.

(** An object is in the list exactly when it is a mesh of the model with
    a material that passes the test. *)
Lemma elem_of_loaded_clickable (model child : Object3D) :
  child ∈ flat_map clickable_entries (traverse model) <->
  child ∈ traverse model /\ isMesh child = true
  /\ exists mat, mat ∈ materials_of child /\ is_clickable_material mat = true.
Proof.
  unfold clickable_entries. split.
  - intros Hin. apply list_elem_of_In, in_flat_map in Hin as (o & Ho & Hin).
    destruct (isMesh o) eqn:Hm; [|by destruct Hin].
    apply in_flat_map in Hin as (mat & Hmat & Hin).
    destruct (is_clickable_material mat) eqn:Hc; [|by destruct Hin].
    destruct Hin as [->|[]]. apply list_elem_of_In in Ho, Hmat. eauto.
  - intros (Ho & Hm & mat & Hmat & Hc).
    apply list_elem_of_In, in_flat_map. exists child.
    split; [by apply list_elem_of_In|]. rewrite Hm.
    apply in_flat_map. exists mat. split; [by apply list_elem_of_In|].
    rewrite Hc. by left.
Qed.

(** Once the model is loaded no event changes the list. *)
Lemma clickable_stable (s : State) (events : list Event) :
  pending_load s = None ->
  pending_load (run s events) = None
  /\ clickableMeshes (run s events) = clickableMeshes s.
Proof.
  intros Hp.
  apply (foldl_keeps _ (fun s' => pending_load s' = None
                                  /\ clickableMeshes s' = clickableMeshes s));
    [|done].
  intros e s' [Hp' <-].
  assert (loading_part (step s' e) = loading_part s') as E.
  { apply step_loading_part. destruct e; try done; by rewrite Hp'. }
  unfold loading_part in E. split; congruence.
Qed.

(** With distinct identities, a mesh of the model occurs in the list once
    for each of its materials that passes the test. *)
Lemma occurrences_loaded_clickable (objects : list Object3D) (child : Object3D) :
  NoDup (map obj_uuid objects) ->
  child ∈ objects ->
  isMesh child = true ->
  occurrences (obj_uuid child) (flat_map clickable_entries objects)
  = length (filter (fun mat => is_clickable_material mat = true)
                   (materials_of child)).
Proof.
  unfold occurrences. intros Hnd Hin Hmesh.
  assert (forall o n, length (filter (fun o' => obj_uuid o' = obj_uuid child)
                                (replicate n o))
                      = if decide (obj_uuid o = obj_uuid child) then n else 0)
    as Hrep.
  { intros o n. induction n as [|n IH]; simpl; [by case_decide|].
    rewrite filter_cons. case_decide; simpl; by rewrite IH. }
  assert (forall o, length (filter (fun o' => obj_uuid o' = obj_uuid child)
                              (clickable_entries o))
                    = if decide (obj_uuid o = obj_uuid child)
                      then length (clickable_entries o) else 0) as Hent.
  { intros o. destruct (isMesh o) eqn:Hm.
    - rewrite clickable_entries_mesh by done. rewrite Hrep.
      by rewrite length_replicate.
    - unfold clickable_entries. rewrite Hm. by case_decide. }
  assert (forall objs, obj_uuid child ∉ map obj_uuid objs ->
            length (filter (fun o' => obj_uuid o' = obj_uuid child)
                      (flat_map clickable_entries objs)) = 0) as Hzero.
  { induction objs as [|o objs IH]; intros Hfresh; [done|].
    simpl in *. rewrite filter_app, length_app, Hent.
    apply not_elem_of_cons in Hfresh as [Hne Hfresh].
    rewrite decide_False by done. by rewrite IH. }
  induction objects as [|o objects IH]; [by apply elem_of_nil in Hin|].
  simpl in *. apply NoDup_cons in Hnd as [Hfresh Hnd].
  rewrite filter_app, length_app, Hent.
  apply elem_of_cons in Hin as [->|Hin].
  - rewrite decide_True by done.
    rewrite clickable_entries_mesh, length_replicate by done.
    rewrite Hzero by done. lia.
  - rewrite decide_False; [by apply IH|].
    intros Heq. apply Hfresh. rewrite Heq. by apply list_elem_of_fmap_2.
Qed.

(** For a model none of whose materials is named after a property of
    [Object.prototype], the list holds exactly the meshes with a material
    of a known name. *)
Lemma clickable_iff_known_name (model child : Object3D) :
  (forall o mat, o ∈ traverse model -> mat ∈ materials_of o ->
                 mat_name mat ∉ JS.Object_prototype) ->
  (child ∈ flat_map clickable_entries (traverse model) <->
   child ∈ traverse model /\ isMesh child = true
   /\ exists mat, mat ∈ materials_of child /\ mat_name mat ∈ known_names).
Proof.
  intros Hplain. rewrite elem_of_loaded_clickable. split.
  - intros (Hin & Hm & mat & Hmat & Hc). split; [done|]. split; [done|].
    exists mat. split; [done|].
    apply is_clickable_material_spec in Hc as [Hk|Hp]; [done|].
    by destruct (Hplain child mat Hin Hmat).
  - intros (Hin & Hm & mat & Hmat & Hk). split; [done|]. split; [done|].
    exists mat. split; [done|]. apply is_clickable_material_spec. by left.
Qed.

(** C5, at a model in which a material is named 'constructor': the mesh
    that carries it, and no material of a known name, is in the clickable
    list all the same, because the colour table inherits a property of
    that name; a click on it opens the info panel. *)
Theorem inherited_name_is_clickable :
  let s := Sample.loaded true Sample.shed in
  let child := tag_shadows (Sample.mesh 1 (SingleMaterial Sample.ctorMat)) in
  child ∈ clickableMeshes s
  /\ materials_of child = [Sample.ctorMat]
  /\ (mat_name Sample.ctorMat ∉ known_names)
  /\ materialInfoBox (on_click (Sample.ray_at 1) s) = "block"
  /\ materialText (on_click (Sample.ray_at 1) s) = JS.Inherited "constructor".
Proof.
  split; [|split; [|split; [|split]]].
  - replace (clickableMeshes (Sample.loaded true Sample.shed))
      with (flat_map clickable_entries (traverse (tag_shadows Sample.shed)))
      by reflexivity.
    apply elem_of_loaded_clickable. split; [simpl; set_solver|].
    split; [reflexivity|]. exists Sample.ctorMat.
    split; [simpl; set_solver|by vm_compute].
  - reflexivity.
  - unfold known_names, roofMaterialName. simpl. set_solver.
  - by vm_compute.
  - by vm_compute.
Qed.

(** C10, at the same model: the mesh whose materials are named
    'genting.004' and 'constructor' has one material of a known name and
    occurs twice in the clickable list. *)
Theorem inherited_name_adds_entry :
  let s := Sample.loaded true Sample.shed in
  let child := Sample.mesh 2 (MaterialArray [Sample.roofMat; Sample.ctorMat]) in
  length (filter (fun mat => mat_name mat ∈ known_names) (materials_of child))
  = 1
  /\ occurrences (obj_uuid child) (clickableMeshes s) = 2.
Proof. split; by vm_compute. Qed.

(** * Further properties of the script *)

(** ** The effect of a click, in full *)

Lemma name_color_roof mat :
  roof_branch mat = true -> name_color (mat_name mat) = Some roofColor.
Proof. unfold roof_branch, name_color. by intros ->. Qed.

Lemma click_material_color mat mat' s :
  colors (click_material mat' s) !! mat
  = match name_color (mat_name mat) with
    | Some c => if decide (mat = mat') then Some c else colors s !! mat
    | None => colors s !! mat
    end.
Proof.
  destruct (decide (mat = mat')) as [<-|Hne].
  - unfold name_color. fold (roof_branch mat).
    destruct (roof_branch mat) eqn:Hr.
    + apply click_material_roof_color. by apply String.eqb_eq.
    + destruct (info_branch mat) eqn:Hi.
      * rewrite click_material_info by done.
        unfold info_branch in Hi. rewrite Hr in Hi. simpl in Hi.
        destruct (JS.get otherMaterialColors (mat_name mat)) as [|c|k];
          simpl in *; [done| |done].
        rewrite Hi. apply lookup_insert_eq.
      * rewrite click_material_other by done.
        unfold info_branch in Hi. rewrite Hr in Hi. simpl in Hi.
        destruct (JS.get otherMaterialColors (mat_name mat)) as [|c|k];
          simpl in *; [done| |done].
        by rewrite Hi.
  - rewrite click_material_color_ne by done.
    by destruct (name_color (mat_name mat)).
Qed.

Lemma click_all_color_effect (mats : list Material) (mat : Material) s :
  colors (click_all s mats) !! mat
  = match name_color (mat_name mat) with
    | Some c => if decide (mat ∈ mats) then Some c else colors s !! mat
    | None => colors s !! mat
    end.
Proof.
  revert s. induction mats as [|mat' mats IH]; intros s.
  - simpl. by destruct (name_color (mat_name mat)).
  - rewrite click_all_cons, IH, click_material_color.
    destruct (name_color (mat_name mat)) as [c|]; [|done].
    destruct (decide (mat ∈ mats)) as [Hin|Hnin].
    + rewrite decide_True; [done|]. by right.
    + destruct (decide (mat = mat')) as [->|Hne].
      * rewrite decide_True; [done|]. by left.
      * rewrite decide_False; [done|]. rewrite elem_of_cons. tauto.
Qed.

(** X1.  The colours after a click, in full: a material is given the
    colour its name stands for (the roof colour, or the colour table's
    own entry) when it is one of the materials of the nearest object hit
    and has such a name; every other material, among them one whose name
    the table only inherits, keeps the colour it had. *)
Theorem click_color_effect (s : State) (ray : Ray) (mat : Material) :
  colors (on_click ray s) !! mat
  = match intersectObjects ray (clickableMeshes s), name_color (mat_name mat)
    with
    | hit :: _, Some c =>
        if decide (mat ∈ materials_of (object hit)) then Some c
        else colors s !! mat
    | _, _ => colors s !! mat
    end.
Proof.
  unfold on_click.
  destruct (intersectObjects ray (clickableMeshes s)) as [|hit rest]; [done|].
  apply click_all_color_effect.
Qed.

(** The last material of a list that takes the colour-table branch. *)
Lemma click_all_text_effect (mats : list Material) s :
  materialText (click_all s mats)
  = match last (List.filter info_branch mats) with
    | Some mat => info_text (mat_name mat)
    | None => materialText s
    end
  /\ materialInfoBox (click_all s mats)
     = match last (List.filter info_branch mats) with
       | Some _ => "block"
       | None => materialInfoBox s
       end.
Proof.
  revert s. induction mats as [|mat mats IH]; intros s; [done|].
  rewrite click_all_cons. destruct (IH (click_material mat s)) as [-> ->].
  rewrite click_material_info_text, click_material_info_display. simpl.
  destruct (info_branch mat) eqn:Hi; [|done]. rewrite last_cons.
  by destruct (last (List.filter info_branch mats)).
Qed.

(** X2.  The info panel after a click, in full: when the nearest object
    hit has a material that takes the colour-table branch, the panel is
    shown with the text of the last such material in the object's
    material list; otherwise text and panel are left as they were. *)
Theorem click_info_effect (s : State) (ray : Ray) :
  let shown_for :=
    match intersectObjects ray (clickableMeshes s) with
    | hit :: _ => last (List.filter info_branch (materials_of (object hit)))
    | [] => None
    end in
  materialText (on_click ray s)
  = match shown_for with
    | Some mat => info_text (mat_name mat)
    | None => materialText s
    end
  /\ materialInfoBox (on_click ray s)
     = match shown_for with
       | Some _ => "block"
       | None => materialInfoBox s
       end.
Proof.
  unfold on_click.
  destruct (intersectObjects ray (clickableMeshes s)) as [|hit rest]; [done|].
  apply click_all_text_effect.
Qed.

Lemma click_all_overlay_effect (mats : list Material) s :
  overlay (click_all s mats)
  = if existsb roof_branch mats then with_display "flex" <$> overlay s
    else overlay s.
Proof.
  revert s. induction mats as [|mat mats IH]; intros s; [done|].
  rewrite click_all_cons, IH, click_material_overlay. simpl.
  destruct (roof_branch mat); simpl; [|done].
  destruct (existsb roof_branch mats); [|done]. by destruct (overlay s).
Qed.

(** X3.  A click repeated on the same ray changes nothing the first did
    not: the colours, the info text, the info panel and the overlay's
    style are those the first click left. *)
Theorem click_twice (s : State) (ray : Ray) :
  let s1 := on_click ray s in
  let s2 := on_click ray s1 in
  colors s2 = colors s1
  /\ materialText s2 = materialText s1
  /\ materialInfoBox s2 = materialInfoBox s1
  /\ overlay s2 = overlay s1.
Proof.
  intros s1 s2. subst s1 s2. unfold on_click at 1 3 5 7.
  destruct (intersectObjects ray (clickableMeshes s)) as [|hit rest] eqn:Hhit.
  { unfold on_click. by rewrite !Hhit. }
  unfold on_click. rewrite Hhit.
  set (mats := materials_of (object hit)).
  assert (clickableMeshes (click_all s mats) = clickableMeshes s) as ->.
  { pose proof (click_all_loading_part mats s) as E.
    unfold loading_part in E. congruence. }
  rewrite Hhit. fold mats. split; [|split; [|split]].
  - apply map_eq. intros mat. rewrite !click_all_color_effect.
    destruct (name_color (mat_name mat)); [|done].
    by destruct (decide (mat ∈ mats)).
  - destruct (click_all_text_effect mats (click_all s mats)) as [-> _].
    destruct (click_all_text_effect mats s) as [-> _].
    by destruct (last (List.filter info_branch mats)).
  - destruct (click_all_text_effect mats (click_all s mats)) as [_ ->].
    destruct (click_all_text_effect mats s) as [_ ->].
    by destruct (last (List.filter info_branch mats)).
  - rewrite !click_all_overlay_effect.
    destruct (existsb roof_branch mats); [|done].
    by destruct (overlay s).
Qed.

(** ** Every state the page reaches *)

Lemma run_invariant (P : State -> Prop) found w h (events : list Event) :
  P (init found w h) ->
  (forall s e, P s -> P (step s e)) ->
  P (run (init found w h) events).
Proof.
  intros Hinit Hstep. unfold run. apply foldl_keeps; [|done].
  intros e s'. apply Hstep.
Qed.

Lemma on_keydown_rest key s :
  let s' := on_keydown key s in
  rendered s' = rendered s /\ materialText s' = materialText s
  /\ view_part s' = view_part s.
Proof.
  unfold on_keydown, overlay_present, overlay_display_is, overlay_style_set,
    setTimeout. simpl.
  destruct (String.eqb key "Escape"); [|done].
  destruct (overlay s) as [st|] eqn:E; simpl.
  - destruct (String.eqb (display st) "flex"); simpl; rewrite ?E; simpl;
      by destruct (String.eqb (materialInfoBox s) "block").
  - by destruct (String.eqb (materialInfoBox s) "block").
Qed.

Lemma run_frame_callback_rest cb s :
  let s' := run_frame_callback cb s in
  view_part s' = view_part s
  /\ rendered s' = rendered s + (if decide (cb = Animate) then 1 else 0)
  /\ (overlay_present s = true -> uncaught s' = uncaught s).
Proof.
  destruct cb; unfold_primitives; repeat split; try done; lia.
Qed.

Lemma run_timer_callback_rest cb s :
  let s' := run_timer_callback cb s in
  view_part s' = view_part s /\ rendered s' = rendered s
  /\ (overlay_present s = true -> uncaught s' = uncaught s).
Proof. destruct cb; unfold_primitives; repeat split; done. Qed.

Lemma uncaught_step (s : State) (e : Event) :
  overlay_present s = true -> uncaught (step s e) = uncaught s.
Proof.
  intros Hp. destruct e; simpl; try done.
  - by case_decide.
  - by case_decide.
  - unfold on_click. case_match; [done|]. unfold click_all.
    apply (foldl_keeps _ (fun s' => uncaught s' = uncaught s)); [|done].
    intros mat s' <-. apply click_material_frame.
  - apply on_keydown_frame.
  - unfold on_frame.
    apply (foldl_keeps _ (fun s' => overlay_present s' = true
                                    /\ uncaught s' = uncaught s)); [|done].
    intros cb s' [Hp' <-]. split.
    + by rewrite run_frame_callback_present.
    + by apply run_frame_callback_rest.
  - unfold on_advance.
    apply (foldl_keeps _ (fun s' => overlay_present s' = true
                                    /\ uncaught s' = uncaught s)); [|done].
    intros cb s' [Hp' <-]. split.
    + by rewrite run_timer_callback_present.
    + by apply run_timer_callback_rest.
Qed.

(** X4.  With or without the overlay element, no handler and no callback
    of the script ever fails on it: whatever events arrive, the page has
    no uncaught [TypeError]. *)
Theorem never_throws (found : bool) (w h : N) (events : list Event) :
  uncaught (run (init found w h) events) = 0.
Proof.
  apply (run_invariant
           (fun s => uncaught s = 0
                     /\ (overlay_present s = true \/ no_overlay s))
           found w h events).
  - split; [done|]. destruct found; [by left|right]. apply no_overlay_init.
  - intros s e [Hu [Hp|Hno]].
    + split; [by rewrite uncaught_step|]. left. by rewrite step_present.
    + pose proof (no_overlay_step s e Hno) as Hno'.
      split; [apply Hno'|by right].
Qed.

(** ** The render loop *)

Lemma frame_callbacks_loop (cbs : list FrameCallback) (s : State) :
  let s' := foldl (fun s cb => run_frame_callback cb s) s cbs in
  raf_queue s' = raf_queue s ++ filter (fun cb => cb = Animate) cbs
  /\ rendered s' = rendered s + length (filter (fun cb => cb = Animate) cbs).
Proof.
  revert s. induction cbs as [|cb cbs IH]; intros s; simpl.
  - by rewrite app_nil_r, Nat.add_0_r.
  - destruct (IH (run_frame_callback cb s)) as [-> ->].
    rewrite run_frame_callback_raf, filter_cons.
    destruct (run_frame_callback_rest cb s) as (_ & -> & _).
    destruct cb; simpl.
    + rewrite <- app_assoc. simpl. split; [done|lia].
    + rewrite app_nil_r. split; [done|lia].
Qed.

(** A frame runs the queue: the render loop asks for the frame after, the
    fade-ins are spent. *)
Lemma on_frame_loop (s : State) :
  raf_queue (on_frame s) = filter (fun cb => cb = Animate) (raf_queue s)
  /\ rendered (on_frame s)
     = rendered s + length (filter (fun cb => cb = Animate) (raf_queue s)).
Proof. apply (frame_callbacks_loop (raf_queue s) (set_raf_queue [] s)). Qed.

Lemma step_loop (s : State) (e : Event) :
  filter (fun cb => cb = Animate) (raf_queue (step s e))
  = filter (fun cb => cb = Animate) (raf_queue s)
  /\ rendered (step s e)
     = rendered s
       + (if is_frame e
          then length (filter (fun cb => cb = Animate) (raf_queue s))
          else 0).
Proof.
  destruct e; simpl; rewrite ?Nat.add_0_r; try done.
  - by case_decide.
  - by case_decide.
  - unfold on_click. case_match; [done|]. unfold click_all.
    apply (foldl_keeps _
             (fun s' => filter (fun cb => cb = Animate) (raf_queue s')
                        = filter (fun cb => cb = Animate) (raf_queue s)
                        /\ rendered s' = rendered s)); [|done].
    intros mat s' [<- <-]. rewrite click_material_raf, filter_app.
    destruct (click_material_frame mat s')
      as (_ & _ & _ & _ & _ & _ & _ & _ & _ & -> & _).
    split; [|done]. destruct (roof_branch mat && overlay_present s'); simpl.
    + rewrite filter_cons, decide_False by done. by rewrite app_nil_r.
    + by rewrite app_nil_r.
  - destruct (on_keydown_frame key s) as (-> & _).
    destruct (on_keydown_rest key s) as (-> & _). done.
  - destruct (on_frame_loop s) as [-> ->]. split; [|done].
    apply list_filter_filter_l. done.
  - rewrite on_advance_raf. split; [done|]. unfold on_advance.
    apply (foldl_keeps _ (fun s' => rendered s' = rendered s)); [|done].
    intros p s' <-. apply run_timer_callback_rest.
Qed.

Lemma run_loop (s : State) (events : list Event) :
  filter (fun cb => cb = Animate) (raf_queue s) = [Animate] ->
  filter (fun cb => cb = Animate) (raf_queue (run s events)) = [Animate]
  /\ rendered (run s events) = rendered s + frames events.
Proof.
  revert s. induction events as [|e events IH]; intros s Hs.
  - unfold frames. simpl. split; [done|lia].
  - destruct (step_loop s e) as [Hq Hr]. rewrite Hs in Hq, Hr.
    destruct (IH (step s e) Hq) as [Hq' Hr'].
    change (run s (e :: events)) with (run (step s e) events).
    split; [exact Hq'|]. rewrite Hr', Hr.
    unfold frames. simpl. destruct (is_frame e); simpl; lia.
Qed.

(** X5.  The render loop neither stops nor multiplies: in every state the
    page reaches exactly one [animate] callback is waiting for the next
    frame, and the number of frames drawn is one (the call of line 189)
    plus the number of frames the browser has painted. *)
Theorem render_loop_runs_once_per_frame
    (found : bool) (w h : N) (events : list Event) :
  let s := run (init found w h) events in
  filter (fun cb => cb = Animate) (raf_queue s) = [Animate]
  /\ rendered s = S (frames events).
Proof. apply (run_loop (init found w h) events). reflexivity. Qed.

(** ** Pending hides *)

Lemma on_frame_now (s : State) : now (on_frame s) = now s.
Proof.
  unfold on_frame.
  apply (foldl_keeps _ (fun s' => now s' = now s)); [|done].
  intros cb s' <-. apply run_frame_callback_frame.
Qed.

(** Time passing keeps the timers that are not yet due. *)
Lemma on_advance_timers (dt : nat) (s : State) :
  timers (on_advance dt s)
  = filter (fun p => ~ p.1 <= now s + dt) (timers s)
  /\ now (on_advance dt s) = now s + dt.
Proof.
  unfold on_advance.
  apply (foldl_keeps _
           (fun s' => timers s'
                      = filter (fun p => ~ p.1 <= now s + dt) (timers s)
                      /\ now s' = now s + dt)); [|done].
  intros p s' [<- <-].
  destruct (run_timer_callback_frame p.2 s') as (-> & -> & _). done.
Qed.

Lemma timers_bounded_step (s : State) (e : Event) :
  timers_bounded s -> timers_bounded (step s e).
Proof.
  intros [Hall Hov]. unfold timers_bounded. rewrite step_present.
  destruct e; simpl.
  - case_decide; [|done]. done.
  - case_decide; [|done]. done.
  - assert (timers (on_click ray s) = timers s /\ now (on_click ray s) = now s)
      as [-> ->]; [|done].
    unfold on_click. case_match; [done|]. unfold click_all.
    apply (foldl_keeps _ (fun s' => timers s' = timers s /\ now s' = now s));
      [|done].
    intros mat s' [<- <-].
    destruct (click_material_frame mat s')
      as (_ & _ & _ & _ & _ & _ & _ & -> & -> & _). done.
  - destruct (String.eqb key "Escape") eqn:E;
      [|by rewrite on_keydown_other].
    apply String.eqb_eq in E as ->. rewrite on_keydown_timers.
    destruct (on_keydown_frame "Escape" s) as (_ & -> & _).
    destruct (overlay_display_is "flex" s) eqn:Hflex.
    + split.
      * apply Forall_app. split; [done|]. repeat constructor; simpl; lia.
      * right. unfold overlay_display_is in Hflex. unfold overlay_present.
        by destruct (overlay s).
    + by rewrite app_nil_r.
  - done.
  - done.
  - by rewrite on_frame_timers, on_frame_now.
  - destruct (on_advance_timers dt s) as [-> ->]. split.
    + apply Forall_forall. intros p [Hlate Hin]%list_elem_of_filter.
      rewrite Forall_forall in Hall. specialize (Hall p Hin). lia.
    + destruct Hov as [->|Hp]; [by left|by right].
Qed.

(** X6.  A hide never lingers: in every state the page reaches, each
    pending timer is due within the next 300 ms; so 300 ms later, with
    nothing else happening, no timer is pending, and if one was, the
    overlay's display is 'none'. *)
Theorem hides_complete_within_300ms
    (found : bool) (w h : N) (events : list Event) :
  let s := run (init found w h) events in
  Forall (fun p => now s < p.1 <= now s + 300) (timers s)
  /\ timers (on_advance 300 s) = []
  /\ (timers s = []
      \/ display <$> overlay (on_advance 300 s) = Some "none").
Proof.
  intros s.
  assert (timers_bounded s) as [Hall Hov].
  { apply (run_invariant timers_bounded found w h events).
    - split; simpl; [constructor|by left].
    - apply timers_bounded_step. }
  split; [exact Hall|]. split.
  - destruct (on_advance_timers 300 s) as [-> _].
    induction Hall as [|p l Hp _ IH]; [done|].
    rewrite filter_cons. case_decide; [lia|]. apply IH.
    destruct Hov as [Hnil|Hp']; [done|by right].
  - destruct (timers s) as [|[t cb] l] eqn:Ht; [by left|right].
    destruct Hov as [Hnil|Hp]; [done|]. destruct cb.
    apply (on_advance_hides s 300 t); [done|rewrite Ht; by left|].
    apply Forall_cons in Hall as [Hle _]. simpl in Hle. lia.
Qed.

(** ** What the panels can hold *)



Lemma on_frame_info (s : State) :
  materialText (on_frame s) = materialText s
  /\ materialInfoBox (on_frame s) = materialInfoBox s
  /\ colors (on_frame s) = colors s.
Proof.
  unfold on_frame.
  apply (foldl_keeps _ (fun s' => materialText s' = materialText s
                                  /\ materialInfoBox s' = materialInfoBox s
                                  /\ colors s' = colors s)); [|done].
  intros cb s' (<- & <- & <-).
  destruct (run_frame_callback_frame cb s')
    as (_ & _ & -> & _ & _ & _ & _ & -> & ->). done.
Qed.

Lemma on_advance_info (dt : nat) (s : State) :
  materialText (on_advance dt s) = materialText s
  /\ materialInfoBox (on_advance dt s) = materialInfoBox s
  /\ colors (on_advance dt s) = colors s.
Proof.
  unfold on_advance.
  apply (foldl_keeps _ (fun s' => materialText s' = materialText s
                                  /\ materialInfoBox s' = materialInfoBox s
                                  /\ colors s' = colors s)); [|done].
  intros cb s' (<- & <- & <-).
  destruct (run_timer_callback_frame cb.2 s')
    as (_ & _ & -> & _ & _ & _ & _ & -> & -> & _). done.
Qed.







(** ** The colour store *)

Lemma step_colors (s : State) (e : Event) (mat : Material) :
  colors (step s e) !! mat = colors s !! mat
  \/ colors (step s e) !! mat = name_color (mat_name mat).
Proof.
  destruct e; simpl; try (by left).
  - case_decide; by left.
  - case_decide; by left.
  - rewrite click_color_effect.
    destruct (intersectObjects ray (clickableMeshes s)); [by left|].
    destruct (name_color (mat_name mat)); [|by left].
    case_decide; [by right|by left].
  - left. by destruct (on_keydown_frame key s) as (_ & _ & _ & -> & _).
  - left. by destruct (on_frame_info s) as (_ & _ & ->).
  - left. by destruct (on_advance_info dt s) as (_ & _ & ->).
Qed.

(** X8.  The colours the script has set, in every state the page reaches:
    a material that has been recoloured has the colour its name stands
    for, the roof colour for 'genting.004' or the colour table's own
    entry; a material with any other name, inherited ones included, is
    never recoloured. *)
Theorem colors_follow_names
    (found : bool) (w h : N) (events : list Event) (mat : Material) :
  let s := run (init found w h) events in
  colors s !! mat = None \/ colors s !! mat = name_color (mat_name mat).
Proof.
  apply (run_invariant
           (fun s => colors s !! mat = None
                     \/ colors s !! mat = name_color (mat_name mat))
           found w h events).
  - by left.
  - intros s e Hs. destruct (step_colors s e mat) as [-> | ->]; [done|by right].
Qed.

(** ** The loaded model *)

(** Tagging the shadows visits the objects [traverse] visits. *)
Lemma traverse_tag_shadows (o : Object3D) :
  traverse (tag_shadows o) = map tag_shadows (traverse o).
Proof.
  induction o as [o IH] using Object3D_subtree_ind.
  destruct o as [u m ms c r ch]. simpl in *. f_equal.
  induction IH as [|x l Hx _ IHl]; simpl; [done|].
  by rewrite map_app, Hx, IHl.
Qed.

(** It changes the two shadow flags of the meshes and nothing else an
    object is told by. *)
Lemma tag_shadows_fields (o : Object3D) :
  obj_uuid (tag_shadows o) = obj_uuid o
  /\ isMesh (tag_shadows o) = isMesh o
  /\ materials_of (tag_shadows o) = materials_of o
  /\ (isMesh o = true ->
      castShadow (tag_shadows o) = true /\ receiveShadow (tag_shadows o) = true)
  /\ (isMesh o = false ->
      castShadow (tag_shadows o) = castShadow o
      /\ receiveShadow (tag_shadows o) = receiveShadow o).
Proof. destruct o as [u [] ms c r ch]; simpl; repeat split; done. Qed.

Lemma model_state_step (s : State) (e : Event) :
  model_state s -> model_state (step s e).
Proof.
  intros Hs.
  assert (loading_part (step s e) = loading_part s -> model_state (step s e))
    as Hsame.
  { unfold loading_part, model_state. intros [= _ -> -> ->]. done. }
  destruct e; try (apply Hsame, step_loading_part; done).
  - simpl. case_decide as Hp; [|done]. left.
    destruct Hs as [(_ & Hsc & Hcl)|[Hnone _]]; [done|congruence].
  - simpl. case_decide as Hp; [|done]. right. split; [done|].
    destruct Hs as [(_ & Hsc & Hcl)|[Hnone _]]; [|congruence].
    exists gltf_scene. simpl. by rewrite Hsc, Hcl.
Qed.

(** X9.  The scene and the clickable list, in every state the page
    reaches: the scene holds at most one loaded model; and every entry of
    the clickable list is an object of that model, is a mesh, casts and
    receives shadows, and has a material that passes the test of line
    117. *)
Theorem clickable_entries_are_scene_meshes
    (found : bool) (w h : N) (events : list Event) :
  let s := run (init found w h) events in
  length (scene s) <= 1
  /\ Forall (fun child =>
               (exists model, scene s = [model] /\ child ∈ traverse model)
               /\ isMesh child = true
               /\ castShadow child = true /\ receiveShadow child = true
               /\ exists mat, mat ∈ materials_of child
                              /\ is_clickable_material mat = true)
            (clickableMeshes s).
Proof.
  intros s.
  assert (model_state s) as Hs.
  { apply (run_invariant model_state found w h events).
    - left. by repeat split.
    - apply model_state_step. }
  destruct Hs as [(_ & -> & ->)|(_ & g & Hsc & Hcl)].
  - split; [simpl; lia|constructor].
  - rewrite Hsc, Hcl. split; [simpl; lia|].
    apply Forall_forall. intros child Hin.
    apply elem_of_loaded_clickable in Hin as (Hin & Hmesh & Hmat).
    split; [by exists (tag_shadows g)|]. split; [done|].
    rewrite traverse_tag_shadows in Hin.
    apply list_elem_of_fmap in Hin as (o & -> & _).
    destruct (tag_shadows_fields o) as (_ & Hm & _ & Hshadow & _).
    rewrite Hm in Hmesh. destruct (Hshadow Hmesh) as [-> ->]. done.
Qed.

(** X10.  The clickable list, told by identity, is decided by the scene
    of the file alone: when the model callback runs on a page whose list
    is empty, the list holds the identity of each mesh visited, in the
    order of the traversal, once for each of its materials that passes
    the test. *)
Theorem clickable_ids_of_model (gltf_scene : Object3D) (s : State) :
  clickableMeshes s = [] ->
  map obj_uuid (clickableMeshes (on_model_loaded gltf_scene s))
  = flat_map
      (fun o =>
         if isMesh o
         then replicate
                (length (filter (fun mat => is_clickable_material mat = true)
                                (materials_of o)))
                (obj_uuid o)
         else [])
      (traverse gltf_scene).
Proof.
  intros Hnil. rewrite on_model_loaded_clickable, Hnil. simpl.
  rewrite traverse_tag_shadows.
  induction (traverse gltf_scene) as [|o l IH]; [done|].
  simpl. rewrite map_app, IH. f_equal.
  destruct (tag_shadows_fields o) as (Hu & Hm & Hmat & _).
  destruct (isMesh o) eqn:Hmesh.
  - rewrite clickable_entries_mesh by congruence.
    rewrite Hmat, fmap_replicate. by rewrite Hu.
  - unfold clickable_entries. by rewrite Hm.
Qed.

Lemma clickable_ids_of_model_witness :
  map obj_uuid
      (clickableMeshes
         (on_model_loaded Sample.house
            (run (init true 800 600) [EnvLoaded 0])))
  = [1; 2; 2; 3; 3].
Proof.
  rewrite (clickable_ids_of_model Sample.house
             (run (init true 800 600) [EnvLoaded 0])); [|reflexivity].
  by vm_compute.
Defined.

(** ** The view *)

Lemma step_view_part (s : State) (e : Event) :
  match e with Resize _ _ => False | _ => True end ->
  view_part (step s e) = view_part s.
Proof.
  destruct e; simpl; intros He; try done.
  - by case_decide.
  - by case_decide.
  - unfold on_click. case_match; [done|]. unfold click_all.
    apply (foldl_keeps _ (fun s' => view_part s' = view_part s)); [|done].
    intros mat s' <-. unfold view_part.
    destruct (click_material_frame mat s')
      as (_ & _ & _ & _ & -> & -> & -> & _). done.
  - apply on_keydown_rest.
  - unfold on_frame.
    apply (foldl_keeps _ (fun s' => view_part s' = view_part s)); [|done].
    intros cb s' <-. apply run_frame_callback_rest.
  - unfold on_advance.
    apply (foldl_keeps _ (fun s' => view_part s' = view_part s)); [|done].
    intros p s' <-. apply run_timer_callback_rest.
Qed.

(** X11.  The camera never disagrees with the drawing surface: in every
    state the page reaches, the camera's aspect ratio is the double that
    dividing the width of the drawing surface by its height gives, and
    the projection is up to date with that ratio. *)
Theorem view_is_consistent (found : bool) (w h : N) (events : list Event) :
  let s := run (init found w h) events in
  camera_aspect s
  = (SF2Prim (binary_normalize prec emax (Z.of_N (renderer_size s).1) 0 false)
     / SF2Prim (binary_normalize prec emax (Z.of_N (renderer_size s).2) 0
                  false))%float
  /\ projection_aspect s = camera_aspect s.
Proof.
  apply (run_invariant
           (fun s => camera_aspect s
                     = (JS.number (renderer_size s).1
                        / JS.number (renderer_size s).2)%float
                     /\ projection_aspect s = camera_aspect s)
           found w h events).
  - done.
  - intros s e Hs.
    assert (view_part (step s e) = view_part s ->
            camera_aspect (step s e)
            = (JS.number (renderer_size (step s e)).1
               / JS.number (renderer_size (step s e)).2)%float
            /\ projection_aspect (step s e) = camera_aspect (step s e))
      as Hsame.
    { unfold view_part. intros [= -> -> ->]. done. }
    destruct e; try (apply Hsame, step_view_part; done). done.
Qed.

(** ** Escape *)

Lemma on_advance_opacity (dt : nat) (s : State) :
  opacity <$> overlay (on_advance dt s) = opacity <$> overlay s.
Proof.
  unfold on_advance.
  apply (foldl_keeps _
           (fun s' => opacity <$> overlay s' = opacity <$> overlay s));
    [|done].
  intros p s' <-. rewrite run_timer_callback_overlay.
  by destruct (overlay s').
Qed.

(** X12.  Escape does not cancel a reveal that is under way: when Escape
    is pressed after a click on the roof and before the next frame, that
    frame still sets the overlay's opacity to '1', so the overlay is
    fully visible while the hide timer runs, and 300 ms later it is
    hidden with its opacity still '1'. *)
Theorem escape_before_frame (s : State) (ray : Ray) hit rest (st : Style) :
  intersectObjects ray (clickableMeshes s) = hit :: rest ->
  (exists mat, mat ∈ materials_of (object hit)
               /\ mat_name mat = "genting.004") ->
  overlay s = Some st ->
  let s3 := on_frame (on_keydown "Escape" (on_click ray s)) in
  overlay s3 = Some {| display := "flex"; opacity := "1" |}
  /\ (now s + 300, OverlayHide) ∈ timers s3
  /\ overlay (on_advance 300 s3) = Some {| display := "none"; opacity := "1" |}.
Proof.
  intros Hhit (roof & Hroof & Hname) Ho. cbv zeta.
  remember (on_click ray s) as s1 eqn:Es1.
  remember (on_keydown "Escape" s1) as s2 eqn:Es2.
  remember (on_frame s2) as s3 eqn:Es3.
  assert (s1 = click_all s (materials_of (object hit))) as Hs1
      by (subst s1; unfold on_click; by rewrite Hhit).
  assert (roof_branch roof = true) as Hbranch
      by (unfold roof_branch; rewrite Hname; reflexivity).
  assert (overlay_present s = true) as Hp
      by (apply overlay_present_Some; rewrite Ho; eauto).
  destruct (click_all_roof_overlay s _ roof Hroof Hbranch Hp)
    as (Hd1 & _ & Hraf1).
  rewrite <- Hs1 in Hd1, Hraf1.
  assert (now s1 = now s) as Hnow1.
  { rewrite Hs1. unfold click_all.
    apply (foldl_keeps _ (fun s' => now s' = now s)); [|done].
    intros mat s' <-. apply click_material_frame. }
  assert (overlay_display_is "flex" s1 = true) as Hflex.
  { unfold overlay_display_is. destruct (overlay s1) as [st1|]; [|done].
    simpl in Hd1. injection Hd1 as ->. reflexivity. }
  assert (display <$> overlay s2 = Some "flex") as Hd2.
  { rewrite Es2, on_keydown_overlay, Hflex. by destruct (overlay s1). }
  assert (OverlayFadeIn ∈ raf_queue s2) as Hraf2
      by (rewrite Es2; by rewrite (proj1 (on_keydown_frame "Escape" s1))).
  assert ((now s + 300, OverlayHide) ∈ timers s2) as Ht2.
  { rewrite Es2, on_keydown_timers, Hflex, Hnow1. set_solver. }
  assert (overlay_present s2 = true) as Hp2.
  { unfold overlay_present. by destruct (overlay s2). }
  assert (now s3 = now s) as Hnow3.
  { rewrite Es3, on_frame_now, Es2.
    by rewrite (proj1 (proj2 (on_keydown_frame "Escape" s1))). }
  assert (overlay s3 = Some {| display := "flex"; opacity := "1" |}) as Ho3.
  { pose proof (on_frame_fades_in s2 Hp2 Hraf2) as Hop.
    pose proof (on_frame_display s2) as Hdp. rewrite Hd2 in Hdp.
    rewrite <- Es3 in Hop, Hdp.
    destruct (overlay s3) as [[d o]|]; simpl in *; congruence. }
  assert ((now s + 300, OverlayHide) ∈ timers s3) as Ht3
      by (rewrite Es3; by rewrite on_frame_timers).
  split; [exact Ho3|]. split; [exact Ht3|].
  pose proof (on_advance_opacity 300 s3) as Hop. rewrite Ho3 in Hop.
  assert (display <$> overlay (on_advance 300 s3) = Some "none") as Hdp.
  { apply (on_advance_hides s3 300 (now s + 300)); [|done|lia].
    apply overlay_present_Some. rewrite Ho3. eauto. }
  destruct (overlay (on_advance 300 s3)) as [[d o]|]; simpl in *; congruence.
Qed.

Lemma escape_before_frame_witness :
  let s := Sample.loaded true Sample.house in
  let s3 := on_frame (on_keydown "Escape" (on_click (Sample.ray_at 1) s)) in
  overlay s3 = Some {| display := "flex"; opacity := "1" |}
  /\ overlay (on_advance 300 s3) = Some {| display := "none"; opacity := "1" |}.
Proof.
  destruct (escape_before_frame (Sample.loaded true Sample.house)
              (Sample.ray_at 1)
              (Sample.hit (Sample.mesh 1 (SingleMaterial Sample.roofMat))) []
              {| display := "none"; opacity := "0" |})
    as (Ho & _ & Hh).
  - by vm_compute.
  - exists Sample.roofMat. split; [simpl; set_solver|reflexivity].
  - reflexivity.
  - split; [exact Ho|exact Hh].
Defined.

(** X13.  A key press with nothing to close changes nothing: when the
    overlay is not displayed 'flex' (or is absent) and the info panel is
    not displayed 'block', the page after any key, Escape included, is
    the page before. *)
Theorem keydown_with_nothing_open (key : string) (s : State) :
  overlay_display_is "flex" s = false ->
  materialInfoBox s <> "block" ->
  on_keydown key s = s.
Proof.
  intros Hflex Hbox. unfold on_keydown.
  destruct (String.eqb key "Escape"); [|done].
  rewrite Hflex, andb_false_r.
  destruct (String.eqb (materialInfoBox s) "block") eqn:E; [|done].
  by apply String.eqb_eq in E.
Qed.

Lemma keydown_with_nothing_open_witness :
  on_keydown "Escape" (Sample.loaded true Sample.house)
  = Sample.loaded true Sample.house.
Proof.
  apply (keydown_with_nothing_open "Escape" (Sample.loaded true Sample.house)).
  - reflexivity.
  - by vm_compute.
Defined.

Lemma on_advance_display (dt : nat) (s : State) :
  display <$> overlay (on_advance dt s) = display <$> overlay s
  \/ display <$> overlay (on_advance dt s) = Some "none".
Proof.
  unfold on_advance.
  apply (foldl_keeps _
           (fun s' => display <$> overlay s' = display <$> overlay s
                      \/ display <$> overlay s' = Some "none"));
    [|by left].
  intros p s' Hs'. rewrite run_timer_callback_overlay.
  destruct (overlay s'); simpl in *; [by right|done].
Qed.

(** X14.  Only a pointer click shows a panel or changes a colour: an
    event that is no click and no press of the Close button (a load
    callback, a key, a resize, a frame, a timer) leaves every colour and
    the info text as they were, and after it the info panel is displayed
    'block', or the overlay 'flex', only if it was before. *)
Theorem only_a_click_shows (s : State) (e : Event) :
  match e with Click _ | CloseButton => False | _ => True end ->
  colors (step s e) = colors s
  /\ materialText (step s e) = materialText s
  /\ (materialInfoBox (step s e) = "block" -> materialInfoBox s = "block")
  /\ (display <$> overlay (step s e) = Some "flex" ->
      display <$> overlay s = Some "flex").
Proof.
  destruct e; simpl; intros He; try done.
  - by case_decide.
  - by case_decide.
  - destruct (on_keydown_frame key s) as (_ & _ & _ & -> & _).
    destruct (on_keydown_rest key s) as (_ & -> & _).
    split; [done|]. split; [done|].
    destruct (String.eqb key "Escape") eqn:E;
      [|by rewrite on_keydown_other].
    apply String.eqb_eq in E as ->.
    rewrite on_keydown_info, on_keydown_overlay. split.
    + destruct (String.eqb (materialInfoBox s) "block"); done.
    + destruct (overlay_display_is "flex" s); [|done].
      by destruct (overlay s).
  - destruct (on_frame_info s) as (-> & -> & ->).
    by rewrite on_frame_display.
  - destruct (on_advance_info dt s) as (-> & -> & ->).
    split; [done|]. split; [done|]. split; [done|].
    destruct (on_advance_display dt s) as [-> | ->]; done.
Qed.

Lemma only_a_click_shows_witness :
  let s := run (Sample.loaded true Sample.house) [Click (Sample.ray_at 2)] in
  colors (step s (Advance 500)) = colors s
  /\ materialText (step s (KeyDown "Escape")) = materialText s.
Proof.
  intros s. split.
  - apply (only_a_click_shows s (Advance 500)). exact I.
  - apply (only_a_click_shows s (KeyDown "Escape")). exact I.
Defined.

(** ** The nearest hit *)

Lemma elem_of_insert_asc (x y : Intersection) (l : list Intersection) :
  x ∈ insert_asc y l <-> x = y \/ x ∈ l.
Proof.
  induction l as [|z l IH]; simpl.
  - rewrite elem_of_cons. tauto.
  - destruct (Qle_bool (distance y) (distance z)).
    + by rewrite elem_of_cons.
    + rewrite !elem_of_cons, IH. tauto.
Qed.

Lemma elem_of_ascSort (x : Intersection) (l : list Intersection) :
  x ∈ ascSort l <-> x ∈ l.
Proof.
  unfold ascSort. induction l as [|y l IH]; simpl; [done|].
  by rewrite elem_of_insert_asc, elem_of_cons, IH.
Qed.

(** The first element of the sorted list is nearest. *)
Lemma ascSort_head_nearest (l : list Intersection) h t :
  ascSort l = h :: t ->
  forall x, x ∈ l -> (distance h <= distance x)%Q.
Proof.
  revert h t. unfold ascSort.
  induction l as [|y l IH]; intros h t; simpl; [done|].
  destruct (foldr insert_asc [] l) as [|h0 t0] eqn:E.
  - simpl. intros [= <- <-] x Hx.
    apply elem_of_cons in Hx as [->|Hx]; [apply Qle_refl|].
    apply elem_of_ascSort in Hx. unfold ascSort in Hx. rewrite E in Hx.
    by apply elem_of_nil in Hx.
  - specialize (IH h0 t0 eq_refl). simpl.
    destruct (Qle_bool (distance y) (distance h0)) eqn:Hle.
    + intros [= <- <-] x Hx. apply Qle_bool_iff in Hle.
      apply elem_of_cons in Hx as [->|Hx]; [apply Qle_refl|].
      eapply Qle_trans; [exact Hle|by apply IH].
    + intros [= <- <-] x Hx.
      apply elem_of_cons in Hx as [->|Hx]; [|by apply IH].
      destruct (Qlt_le_dec (distance h0) (distance y)) as [Hlt|Hge].
      * by apply Qlt_le_weak.
      * apply Qle_bool_iff in Hge. congruence.
Qed.

Lemma elem_of_intersectObject (ray : Ray) (o : Object3D) (x : Intersection) :
  x ∈ intersectObject ray o <->
  object x ∈ traverse o /\ distance x ∈ ray (obj_uuid (object x)).
Proof.
  induction o as [o IH] using Object3D_subtree_ind.
  destruct o as [u m ms c r ch]. simpl in *.
  rewrite elem_of_app, list_elem_of_fmap, elem_of_cons.
  rewrite Forall_forall in IH. split.
  - intros [(d & -> & Hd)|Hx]; [by split; [left|]|].
    apply list_elem_of_In, in_flat_map in Hx as (child & Hc & Hx).
    apply list_elem_of_In in Hc, Hx. apply (IH child Hc) in Hx as [Ht Hd].
    split; [|done]. right. apply list_elem_of_In, in_flat_map.
    exists child. split; by apply list_elem_of_In.
  - intros [[Hself|Hsub] Hd].
    + left. exists (distance x). destruct x as [d o']. simpl in *.
      subst o'. done.
    + right. apply list_elem_of_In, in_flat_map in Hsub as (child & Hc & Ht).
      apply list_elem_of_In in Hc, Ht.
      apply list_elem_of_In, in_flat_map. exists child.
      split; [by apply list_elem_of_In|].
      apply list_elem_of_In, (IH child Hc). done.
Qed.

(** X15.  The object a click acts on: the first intersection the handler
    takes belongs to one of the listed meshes or to a descendant of one,
    at a distance the ray reports for it, and no object under the listed
    meshes is met by the ray at a smaller distance. *)
Theorem first_intersection_is_nearest
    (ray : Ray) (objects : list Object3D) hit rest :
  intersectObjects ray objects = hit :: rest ->
  (exists o, o ∈ objects /\ object hit ∈ traverse o)
  /\ distance hit ∈ ray (obj_uuid (object hit))
  /\ forall o d q, o ∈ objects -> d ∈ traverse o -> q ∈ ray (obj_uuid d) ->
                   (distance hit <= q)%Q.
Proof.
  intros Hhit. unfold intersectObjects in Hhit.
  assert (hit ∈ flat_map (intersectObject ray) objects) as Hin
      by (apply elem_of_ascSort; rewrite Hhit; by left).
  apply list_elem_of_In, in_flat_map in Hin as (o & Ho & Hin).
  apply list_elem_of_In in Ho, Hin.
  apply elem_of_intersectObject in Hin as [Ht Hd].
  split; [by exists o|]. split; [done|].
  intros o' d q Ho' Hd' Hq.
  apply (ascSort_head_nearest _ _ _ Hhit {| distance := q; object := d |}).
  apply list_elem_of_In, in_flat_map. exists o'.
  split; [by apply list_elem_of_In|].
  apply list_elem_of_In, elem_of_intersectObject. done.
Qed.

Lemma first_intersection_is_nearest_witness :
  let ray : Ray := fun i => if Nat.eqb i 1 then [7 # 1; 3 # 1]%Q
                            else if Nat.eqb i 3 then [5 # 1]%Q else [] in
  let objects := clickableMeshes (Sample.loaded true Sample.house) in
  exists hit rest,
    intersectObjects ray objects = hit :: rest
    /\ obj_uuid (object hit) = 1
    /\ distance hit = (3 # 1)%Q
    /\ (distance hit <= 5 # 1)%Q.
Proof.
  intros ray objects.
  pose (roof := tag_shadows (Sample.mesh 1 (SingleMaterial Sample.roofMat))).
  pose (tower := tag_shadows
                   (Sample.mesh 3
                      (MaterialArray [Sample.roofMat; Sample.goldMat]))).
  exists {| distance := 3 # 1; object := roof |}.
  exists [ {| distance := 5 # 1; object := tower |};
           {| distance := 5 # 1; object := tower |};
           {| distance := 7 # 1; object := roof |} ].
  assert (intersectObjects ray objects
          = {| distance := 3 # 1; object := roof |}
            :: [ {| distance := 5 # 1; object := tower |};
                 {| distance := 5 # 1; object := tower |};
                 {| distance := 7 # 1; object := roof |} ]) as Hhit
      by by vm_compute.
  split; [exact Hhit|]. split; [reflexivity|]. split; [reflexivity|].
  destruct (first_intersection_is_nearest ray objects _ _ Hhit)
    as (_ & _ & Hnear).
  apply (Hnear tower tower (5 # 1)%Q).
  - subst objects. vm_compute. set_solver.
  - simpl. by left.
  - simpl. by left.
Defined.

(** ** The overlay after a click, and resizes among other events *)

Lemma click_all_raf_effect (mats : list Material) s :
  raf_queue (click_all s mats)
  = raf_queue s
    ++ (if overlay_present s
        then replicate (length (List.filter roof_branch mats)) OverlayFadeIn
        else []).
Proof.
  revert s. induction mats as [|mat mats IH]; intros s.
  - simpl. destruct (overlay_present s); by rewrite app_nil_r.
  - rewrite click_all_cons, IH, click_material_raf, click_material_present.
    simpl. destruct (roof_branch mat), (overlay_present s); simpl;
      by rewrite <- ?app_assoc, ?app_nil_r.
Qed.

(** X16.  The overlay after a click, in full: its display is set to
    'flex' exactly when the nearest object hit has a material named after
    the roof, its opacity is never touched by the click itself, and one
    fade-in is queued for each such material of the object; without the
    overlay element nothing is queued. *)
Theorem click_overlay_effect (s : State) (ray : Ray) :
  let roofs :=
    match intersectObjects ray (clickableMeshes s) with
    | hit :: _ => List.filter roof_branch (materials_of (object hit))
    | [] => []
    end in
  overlay (on_click ray s)
  = match roofs with
    | [] => overlay s
    | _ :: _ => with_display "flex" <$> overlay s
    end
  /\ raf_queue (on_click ray s)
     = raf_queue s
       ++ (if overlay_present s then replicate (length roofs) OverlayFadeIn
           else []).
Proof.
  unfold on_click.
  destruct (intersectObjects ray (clickableMeshes s)) as [|hit rest]; simpl.
  - destruct (overlay_present s); by rewrite app_nil_r.
  - rewrite click_all_overlay_effect, click_all_raf_effect. split; [|done].
    induction (materials_of (object hit)) as [|mat mats IH]; [done|].
    simpl. destruct (roof_branch mat); [done|]. exact IH.
Qed.

Lemma on_resize_frame_callback w h cb s :
  run_frame_callback cb (on_resize w h s)
  = on_resize w h (run_frame_callback cb s).
Proof.
  destruct cb; simpl; [reflexivity|].
  unfold overlay_style_set, on_resize. simpl. by destruct (overlay s).
Qed.

Lemma on_resize_timer_callback w h cb s :
  run_timer_callback cb (on_resize w h s)
  = on_resize w h (run_timer_callback cb s).
Proof.
  destruct cb; simpl.
  unfold overlay_style_set, on_resize. simpl. by destruct (overlay s).
Qed.

Lemma on_resize_foldl {A} (f : State -> A -> State) w h (l : list A) s :
  (forall x s', f (on_resize w h s') x = on_resize w h (f s' x)) ->
  foldl f (on_resize w h s) l = on_resize w h (foldl f s l).
Proof.
  intros Hf. revert s. induction l as [|x l IH]; intros s; [done|].
  simpl. by rewrite Hf, IH.
Qed.

(** X17.  A resize does not interfere with the events that do not
    depend on the view: resizing before or after a load callback, a key,
    the Close handler, a frame or a timer gives the same page, and of two
    resizes the later one decides.  (A click is left out: its ray depends
    on the window and the camera.) *)
Theorem resize_commutes (w h : N) (s : State) (e : Event) :
  match e with
  | Click _ => True
  | Resize w' h' => step (step s (Resize w h)) e = step s e
  | _ => step (step s (Resize w h)) e = step (step s e) (Resize w h)
  end.
Proof.
  destruct e; simpl; try reflexivity.
  - by case_decide.
  - by case_decide.
  - unfold on_keydown, overlay_present, overlay_display_is, overlay_style_set,
      setTimeout, on_resize. simpl.
    destruct (String.eqb key "Escape"); [|done].
    destruct (overlay s) as [st|]; simpl.
    + destruct (String.eqb (display st) "flex"); simpl;
        by destruct (String.eqb (materialInfoBox s) "block").
    + by destruct (String.eqb (materialInfoBox s) "block").
  - unfold on_frame.
    change (raf_queue (on_resize w h s)) with (raf_queue s).
    change (set_raf_queue [] (on_resize w h s))
      with (on_resize w h (set_raf_queue [] s)).
    apply on_resize_foldl. intros cb s'. apply on_resize_frame_callback.
  - unfold on_advance.
    change (timers (on_resize w h s)) with (timers s).
    change (now (on_resize w h s)) with (now s).
    change (set_timers
              (filter (fun p => ~ p.1 <= now s + dt) (timers s))
              (set_now (now s + dt) (on_resize w h s)))
      with (on_resize w h
              (set_timers
                 (filter (fun p => ~ p.1 <= now s + dt) (timers s))
                 (set_now (now s + dt) s))).
    apply (on_resize_foldl (fun s p => run_timer_callback p.2 s)).
    intros p s'. apply on_resize_timer_callback.
Qed.

(** ** A click beside the clickable meshes *)

(** An object under an object of the graph is an object of the graph. *)
Lemma traverse_trans (d o m : Object3D) :
  d ∈ traverse o -> o ∈ traverse m -> d ∈ traverse m.
Proof.
  intros Hd. induction m as [m IH] using Object3D_subtree_ind.
  destruct m as [u mesh ms c r ch]. simpl in *.
  rewrite Forall_forall in IH.
  intros [->|Ho]%elem_of_cons; [exact Hd|].
  apply list_elem_of_In, in_flat_map in Ho as (child & Hc & Ho).
  apply list_elem_of_In in Hc, Ho.
  right. apply list_elem_of_In, in_flat_map. exists child.
  split; [by apply list_elem_of_In|]. apply list_elem_of_In. by apply IH.
Qed.

(** Materials that fail the test of line 117 take neither branch. *)
Lemma click_all_none (mats : list Material) (s : State) :
  Forall (fun mat => is_clickable_material mat = false) mats ->
  click_all s mats = s.
Proof.
  intros Hnone. revert s. induction Hnone as [|mat mats Hmat _ IH]; intros s;
    [done|].
  rewrite click_all_cons. unfold is_clickable_material in Hmat.
  apply orb_false_iff in Hmat as [Hr Ht].
  rewrite click_material_other; [apply IH|exact Hr|].
  unfold info_branch. by rewrite Ht, andb_false_r.
Qed.

(** The object of the first intersection is under a listed object, and
    the ray does meet it. *)
Lemma first_intersection_under_list (ray : Ray) objects hit rest :
  intersectObjects ray objects = hit :: rest ->
  exists o, o ∈ objects /\ object hit ∈ traverse o
            /\ ray (obj_uuid (object hit)) <> [].
Proof.
  intros Hhit. unfold intersectObjects in Hhit.
  assert (hit ∈ flat_map (intersectObject ray) objects) as Hin
      by (apply elem_of_ascSort; rewrite Hhit; by left).
  apply list_elem_of_In, in_flat_map in Hin as (o & Ho & Hin).
  apply list_elem_of_In in Ho, Hin.
  apply elem_of_intersectObject in Hin as [Ht Hd].
  exists o. split; [done|]. split; [done|].
  intros Hnil. rewrite Hnil in Hd. by apply elem_of_nil in Hd.
Qed.

(** C3 (as amended).  In every state the page reaches, a click whose ray
    meets no mesh of the clickable set, and no object beneath a listed
    mesh that is no mesh itself and carries a material passing the test
    of line 117, changes nothing: the state, and so every material
    colour, the overlay and the info panel, are as before. *)
Theorem click_beside_the_clickable_meshes
    (found : bool) (w h : N) (events : list Event) (ray : Ray) :
  let s := run (init found w h) events in
  (forall o, o ∈ clickableMeshes s -> ray (obj_uuid o) = []) ->
  (forall o d, o ∈ clickableMeshes s -> d ∈ traverse o ->
               isMesh d = false ->
               (exists mat, mat ∈ materials_of d
                            /\ is_clickable_material mat = true) ->
               ray (obj_uuid d) = []) ->
  on_click ray s = s
  /\ colors (on_click ray s) = colors s
  /\ overlay (on_click ray s) = overlay s
  /\ materialInfoBox (on_click ray s) = materialInfoBox s
  /\ materialText (on_click ray s) = materialText s.
Proof.
  intros s Hlisted Hbeneath. assert (on_click ray s = s) as ->; [|done].
  unfold on_click.
  destruct (intersectObjects ray (clickableMeshes s)) as [|hit rest] eqn:Hhit;
    [done|].
  destruct (first_intersection_under_list _ _ _ _ Hhit) as (o & Ho & Hd & Hmet).
  destruct (existsb is_clickable_material (materials_of (object hit)))
    eqn:Hex.
  - exfalso. apply Hmet.
    apply existsb_exists in Hex as (mat & Hmat & Hc).
    apply list_elem_of_In in Hmat.
    destruct (isMesh (object hit)) eqn:Hmesh; [|by apply (Hbeneath o); eauto].
    apply Hlisted.
    assert (model_state s) as Hs.
    { apply (run_invariant model_state found w h events).
      - left. by repeat split.
      - apply model_state_step. }
    destruct Hs as [(_ & _ & Hnil)|(_ & g & _ & Hcl)].
    + rewrite Hnil in Ho. by apply elem_of_nil in Ho.
    + rewrite Hcl in Ho |- *.
      apply elem_of_loaded_clickable in Ho as (Ho & _).
      apply elem_of_loaded_clickable.
      split; [by apply (traverse_trans _ o)|]. split; [done|]. eauto.
  - apply click_all_none, Forall_forall. intros mat Hmat.
    apply not_true_iff_false. intros Hc.
    assert (existsb is_clickable_material (materials_of (object hit)) = true)
      as Hex'; [|congruence].
    apply existsb_exists. exists mat. split; [|done].
    by apply list_elem_of_In.
Qed.

Lemma click_beside_the_clickable_meshes_witness :
  let s := run (init true 800 600) [EnvLoaded 0; ModelLoaded Sample.house] in
  on_click (Sample.ray_at 4) s = s.
Proof.
  intros s.
  apply (click_beside_the_clickable_meshes true 800 600
           [EnvLoaded 0; ModelLoaded Sample.house] (Sample.ray_at 4)).
  - apply Forall_forall. vm_compute. repeat constructor.
  - intros o d Ho Hd Hline _. exfalso.
    assert (Forall (fun o => Forall (fun d => isMesh d = true) (traverse o))
                   (clickableMeshes s)) as Hall
        by (vm_compute; repeat constructor).
    rewrite Forall_forall in Hall. specialize (Hall o Ho).
    rewrite Forall_forall in Hall. specialize (Hall d Hd). congruence.
Defined.

(** C3 as stated fails on a roof with a rail: the rail is no mesh, so it
    is not in the clickable set, but it is a child of the roof mesh, which
    is.  A ray that meets the rail alone meets no mesh of the set; the
    handler, which also tests the descendants, takes the rail, gives its
    material the roof colour and displays the overlay. *)
Lemma click_beside_the_clickable_meshes_counterexample :
  let s := Sample.loaded true Porch.model in
  let ray := Sample.ray_at 2 in
  clickableMeshes s = [tag_shadows Porch.roof]
  /\ ray (obj_uuid (tag_shadows Porch.roof)) = []
  /\ colors s !! Porch.railMat = None
  /\ colors (on_click ray s) !! Porch.railMat = Some "#5CA9E9"
  /\ overlay s = Some {| display := "none"; opacity := "0" |}
  /\ overlay (on_click ray s) = Some {| display := "flex"; opacity := "0" |}.
Proof. repeat split; by vm_compute. Qed.

(** ** The last operation on a panel *)

Lemma run_cons (s : State) (e : Event) (events : list Event) :
  run s (e :: events) = run (step s e) events.
Proof. reflexivity. Qed.

(** While only time passes the info panel stays as it is. *)
Lemma time_only_info (after : list Event) (s : State) :
  time_only after -> materialInfoBox (run s after) = materialInfoBox s.
Proof.
  intros Hev. revert s. induction Hev as [|e es He _ IH]; intros s; [done|].
  rewrite run_cons, IH. destruct He as [->|[dt ->]]; simpl.
  - apply on_frame_info.
  - apply on_advance_info.
Qed.

(** While only time passes an opacity of '1' stays, and a fade-in that is
    queued sets it at the first frame. *)
Lemma time_only_keeps_opacity (after : list Event) (s : State) :
  time_only after ->
  opacity <$> overlay s = Some "1" ->
  opacity <$> overlay (run s after) = Some "1".
Proof.
  intros Hev. revert s. induction Hev as [|e es He _ IH]; intros s Ho; [done|].
  rewrite run_cons. apply IH. destruct He as [->|[dt ->]]; simpl.
  - by apply on_frame_keeps_opacity.
  - by rewrite on_advance_opacity.
Qed.

Lemma time_only_fades_in (after : list Event) (s : State) :
  time_only after ->
  overlay_present s = true ->
  OverlayFadeIn ∈ raf_queue s ->
  0 < frames after ->
  opacity <$> overlay (run s after) = Some "1".
Proof.
  intros Hev. revert s.
  induction Hev as [|e es He Hes IH]; intros s Hp Hraf Hfr.
  - unfold frames in Hfr. simpl in Hfr. lia.
  - rewrite run_cons. destruct He as [->|[dt ->]].
    + apply time_only_keeps_opacity; [done|]. simpl.
      by apply on_frame_fades_in.
    + apply IH.
      * by rewrite step_present.
      * simpl. by rewrite on_advance_raf.
      * exact Hfr.
Qed.

(** While only time passes the overlay's display changes in one way: a
    pending hide that falls due sets it to 'none'. *)
Lemma time_only_display (after : list Event) (s : State) :
  time_only after ->
  overlay_present s = true ->
  Forall (fun p => now s < p.1) (timers s) ->
  display <$> overlay (run s after)
  = if decide (Exists (fun p => p.1 <= now s + elapsed after) (timers s))
    then Some "none" else display <$> overlay s.
Proof.
  intros Hev. revert s.
  induction Hev as [|e es He Hes IH]; intros s Hp Hfuture.
  - simpl. rewrite decide_False; [done|].
    intros (p & Hin & Hle)%Exists_exists.
    rewrite Forall_forall in Hfuture. specialize (Hfuture p Hin). lia.
  - rewrite run_cons. destruct He as [->|[dt ->]].
    + rewrite IH.
      * simpl. by rewrite on_frame_timers, on_frame_now, on_frame_display.
      * by rewrite step_present.
      * simpl. by rewrite on_frame_timers, on_frame_now.
    + change (elapsed (Advance dt :: es)) with (dt + elapsed es).
      destruct (decide (Exists (fun p => p.1 <= now s + dt) (timers s)))
        as [Hdue|Hnone].
      * (* a hide falls due now: the display is 'none' from here on *)
        rewrite decide_True.
        2:{ apply Exists_exists in Hdue as (p & Hin & Hle).
            apply Exists_exists. exists p. split; [done|lia]. }
        apply Exists_exists in Hdue as ([t cb] & Hin & Hle). destruct cb.
        pose proof (on_advance_hides s dt t Hp Hin Hle) as Hhidden.
        destruct (on_advance_timers dt s) as [Ht Hn].
        rewrite IH.
        -- simpl. rewrite Hhidden. by case_decide.
        -- by rewrite step_present.
        -- simpl. rewrite Ht, Hn. apply Forall_forall.
           intros p [Hlate _]%list_elem_of_filter. lia.
      * (* nothing is due: only the clock moves *)
        assert (Forall (fun p => now s + dt < p.1) (timers s)) as Hlater.
        { apply Forall_forall. intros p Hin.
          destruct (decide (p.1 <= now s + dt)) as [Hle|Hgt]; [|lia].
          destruct Hnone. apply Exists_exists. eauto. }
        simpl. rewrite (on_advance_idle s dt Hlater).
        rewrite IH; [|done|done]. simpl.
        by rewrite Nat.add_assoc.
Qed.

(** C8 (as amended).  After any sequence of events, let a last operation
    on a panel be followed by time passing (frames and clock ticks).
    The info panel ends in the state that operation asked for: shown
    after a click on a colour-table material, hidden after Escape and
    after a press of the Close button whose own click shows nothing; no
    timer touches it.  The overlay ends hidden once 300 ms have passed
    after an Escape.  After a click on the roof it ends shown, its display
    'flex' and its opacity '1' from the first frame on, unless a hide
    timer of an earlier Escape is still pending at the click and falls
    due afterwards: nothing cancels that timer, and it sets the display
    to 'none'.  Repeating the click, or Escape, re-sets the same overlay
    style. *)
Theorem last_operation_on_a_panel
    (found : bool) (w h : N) (before after : list Event) :
  time_only after ->
  let s := run (init found w h) before in
  (forall ray hit rest mat,
     intersectObjects ray (clickableMeshes s) = hit :: rest ->
     mat ∈ materials_of (object hit) -> info_branch mat = true ->
     materialInfoBox (run (step s (Click ray)) after) = "block")
  /\ (materialInfoBox s = "block" ->
      materialInfoBox (run (step s (KeyDown "Escape")) after) = "none")
  /\ (forall ray,
        (forall hit rest mat,
           intersectObjects ray (clickableMeshes s) = hit :: rest ->
           mat ∈ materials_of (object hit) -> info_branch mat = false) ->
        materialInfoBox (run (step (step s CloseButton) (Click ray)) after)
        = "none")
  /\ (forall st, overlay s = Some st -> display st = "flex" ->
        300 <= elapsed after ->
        display <$> overlay (run (step s (KeyDown "Escape")) after)
        = Some "none")
  /\ (forall ray hit rest,
        intersectObjects ray (clickableMeshes s) = hit :: rest ->
        (exists mat, mat ∈ materials_of (object hit)
                     /\ mat_name mat = "genting.004") ->
        overlay_present s = true ->
        let s1 := step s (Click ray) in
        display <$> overlay (run s1 after)
        = Some (if decide (Exists (fun p => p.1 <= now s + elapsed after)
                                  (timers s))
                then "none" else "flex")
        /\ (0 < frames after ->
            opacity <$> overlay (run s1 after) = Some "1")
        /\ overlay (step s1 (Click ray)) = overlay s1)
  /\ overlay (step (step s (KeyDown "Escape")) (KeyDown "Escape"))
     = overlay (step s (KeyDown "Escape")).
Proof.
  intros Hafter s.
  assert (timers_bounded s) as [Hbounded _].
  { apply (run_invariant timers_bounded found w h before).
    - split; simpl; [constructor|by left].
    - apply timers_bounded_step. }
  assert (Forall (fun p => now s < p.1) (timers s)) as Hfuture.
  { eapply Forall_impl; [exact Hbounded|]. simpl. intros p Hp. lia. }
  split; [|split; [|split; [|split; [|split]]]].
  - (* a click on a colour-table material shows the info panel *)
    intros ray hit rest mat Hhit Hin Hinfo.
    rewrite time_only_info by done. simpl. unfold on_click. rewrite Hhit.
    apply list_elem_of_split in Hin as (pre & post & ->).
    apply (click_all_after (fun s => materialInfoBox s = "block")).
    + intros s'. by rewrite click_material_info_display, Hinfo.
    + intros mat' s' _ Hs'. rewrite click_material_info_display.
      by destruct (info_branch mat').
  - (* Escape hides it *)
    intros Hblock. rewrite time_only_info by done. simpl.
    by rewrite on_keydown_info, Hblock.
  - (* the Close button hides it, when the press shows nothing itself *)
    intros ray Hnone. rewrite time_only_info by done. simpl.
    unfold on_click. simpl.
    destruct (intersectObjects ray (clickableMeshes s)) as [|hit rest] eqn:Hhit;
      [done|].
    destruct (click_all_text_effect (materials_of (object hit)) (on_close s))
      as [_ ->].
    destruct (last (List.filter info_branch (materials_of (object hit))))
      as [mat|] eqn:Hlast; [|done].
    apply last_Some in Hlast as [l' Hl'].
    assert (In mat (List.filter info_branch (materials_of (object hit))))
      as Hin by (rewrite Hl'; apply in_or_app; right; by left).
    apply filter_In in Hin as [Hin Hinfo]. apply list_elem_of_In in Hin.
    rewrite (Hnone hit rest mat eq_refl Hin) in Hinfo. discriminate.
  - (* Escape hides the overlay within 300 ms *)
    intros st Ho Hd Hlate. simpl.
    assert (overlay_display_is "flex" s = true) as Hflex
        by (unfold overlay_display_is; rewrite Ho, Hd; reflexivity).
    destruct (on_keydown_frame "Escape" s) as (_ & Hnow & _).
    pose proof (on_keydown_timers s) as Ht. rewrite Hflex in Ht.
    rewrite time_only_display; [| done | |].
    + rewrite decide_True; [done|]. rewrite Ht, Hnow.
      apply Exists_app. right. constructor. simpl. lia.
    + rewrite on_keydown_present. apply overlay_present_Some.
      rewrite Ho. eauto.
    + rewrite Ht, Hnow. apply Forall_app. split; [done|].
      repeat constructor. simpl. lia.
  - (* a click on the roof, against the hides still pending *)
    intros ray hit rest Hhit (roof & Hroof & Hname) Hp s1.
    assert (s1 = click_all s (materials_of (object hit))) as Hs1
        by (subst s1; simpl; unfold on_click; by rewrite Hhit).
    assert (roof_branch roof = true) as Hbranch
        by (unfold roof_branch; rewrite Hname; reflexivity).
    destruct (click_all_roof_overlay s _ roof Hroof Hbranch Hp)
      as (Hd & _ & Hraf).
    rewrite <- Hs1 in Hd, Hraf.
    assert (timers s1 = timers s /\ now s1 = now s) as [Ht1 Hn1].
    { rewrite Hs1. unfold click_all.
      apply (foldl_keeps _ (fun s' => timers s' = timers s /\ now s' = now s));
        [|done].
      intros mat s' [<- <-].
      destruct (click_material_frame mat s')
        as (_ & _ & _ & _ & _ & _ & _ & -> & -> & _). done. }
    assert (overlay_present s1 = true) as Hp1
        by (rewrite Hs1, click_all_present; exact Hp).
    split; [|split].
    + rewrite time_only_display; [| done | done |].
      * rewrite Ht1, Hn1, Hd. by case_decide.
      * by rewrite Ht1, Hn1.
    + intros Hframe. by apply time_only_fades_in.
    + simpl. unfold on_click at 1.
      assert (clickableMeshes s1 = clickableMeshes s) as ->.
      { rewrite Hs1.
        pose proof (click_all_loading_part (materials_of (object hit)) s) as E.
        unfold loading_part in E. congruence. }
      rewrite Hhit, click_all_overlay_effect.
      destruct (existsb roof_branch (materials_of (object hit))); [|done].
      destruct (overlay s1) as [st1|]; [|done]. simpl in *.
      f_equal. apply with_display_same. congruence.
  - (* Escape twice *)
    simpl. rewrite !on_keydown_overlay.
    unfold overlay_display_is at 1. rewrite on_keydown_overlay.
    unfold overlay_display_is. destruct (overlay s) as [st|]; [|done].
    destruct (String.eqb (display st) "flex") eqn:E; simpl; rewrite E; done.
Qed.

Lemma last_operation_on_a_panel_witness :
  let roof := Sample.ray_at 1 in
  let tower := Sample.ray_at 3 in
  let before := [EnvLoaded 0; ModelLoaded Sample.house; Click roof; Frame;
                 KeyDown "Escape"; Advance 100] in
  let after := [Frame; Advance 200] in
  let s := run (init true 800 600) before in
  materialInfoBox (run (step s (Click tower)) after) = "block"
  /\ display <$> overlay (run (step s (Click roof)) after) = Some "none"
  /\ opacity <$> overlay (run (step s (Click roof)) after) = Some "1".
Proof.
  intros roof tower before after s.
  assert (time_only after) as Hafter.
  { constructor; [by left|]. constructor; [right; by exists 200|constructor]. }
  destruct (last_operation_on_a_panel true 800 600 before after Hafter)
    as (Hinfo & _ & _ & _ & Hshow & _).
  split.
  - apply (Hinfo tower
             (Sample.hit (Sample.mesh 3
                            (MaterialArray [Sample.roofMat; Sample.goldMat])))
             [Sample.hit (Sample.mesh 3
                            (MaterialArray [Sample.roofMat; Sample.goldMat]))]
             Sample.goldMat).
    + by vm_compute.
    + apply list_elem_of_further, list_elem_of_here.
    + by vm_compute.
  - destruct (Hshow roof
                (Sample.hit (Sample.mesh 1 (SingleMaterial Sample.roofMat)))
                [])
      as (Hdisplay & Hopacity & _).
    + by vm_compute.
    + exists Sample.roofMat. split; [apply list_elem_of_here|reflexivity].
    + reflexivity.
    + split.
      * etransitivity; [exact Hdisplay|by vm_compute].
      * apply Hopacity. unfold frames. simpl. lia.
Defined.
